(** * rocFFT: radix-4 butterfly, chirp kernel RTC wrapper, bench front end

    Shallow embedding of
    - [library/src/device/generator/rtc_radix_functions/radix_4.h]
      ([FwdRad4B1], [InvRad4B1]),
    - [library/src/rtc_chirp_kernel.cpp] ([RTCKernelChirp::generate]),
    - [clients/bench/bench.cpp] ([main], up to the call of [rocfft_setup]),
    together with the properties the specification states about them. *)

From Stdlib Require Import ZArith List Ring.
From stdpp Require Import gmap strings list fin_maps.

(* ===================================================================== *)
(** ** radix_4.h                                                          *)
(* ===================================================================== *)

Module Radix4.

Section Butterfly.

(** The kernels are templates over the complex type [T]; [T] has two
    components [x] and [y], the operators [+] and [-] on [T], a scalar
    product [2.0 * z], and the constructor [T(a, b)].  The components are
    taken in any commutative ring [K], with exact operations: the real
    numbers are one, the integers [Z] another. *)
Variable K : Type.
Variables (k0 k1 : K) (kadd kmul ksub : K -> K -> K) (kopp : K -> K).
Hypothesis Kring : ring_theory k0 k1 kadd kmul ksub kopp eq.

Add Ring Kr : Kring.

Record complex : Type := T { x : K; y : K }.

Definition cadd (a b : complex) : complex :=
  T (kadd (x a) (x b)) (kadd (y a) (y b)).

Definition csub (a b : complex) : complex :=
  T (ksub (x a) (x b)) (ksub (y a) (y b)).

(** [s * z] for a real scalar [s]. *)
Definition cscale (s : K) (a : complex) : complex :=
  T (kmul s (x a)) (kmul s (y a)).

(** The literal [2.0]. *)
Definition two : K := kadd k1 k1.

(** Device memory seen through [T*]: an address is a natural number and
    every address holds a value. *)
Definition ptr : Type := nat.
Definition mem : Type := ptr -> complex.

(** [( *p ) = v] *)
Definition store (p : ptr) (v : complex) (m : mem) : mem :=
  fun q => if Nat.eqb q p then v else m q.

(** [FwdRad4B1(T* R0, T* R2, T* R1, T* R3)]: the parameters are listed in
    the order of the declaration, second parameter [R2], third [R1]. *)
Definition FwdRad4B1 (R0 R2 R1 R3 : ptr) (m : mem) : mem :=
  let m := store R1 (csub (m R0) (m R1)) m in
  let m := store R0 (csub (cscale two (m R0)) (m R1)) m in
  let m := store R3 (csub (m R2) (m R3)) m in
  let m := store R2 (csub (cscale two (m R2)) (m R3)) m in
  let m := store R2 (csub (m R0) (m R2)) m in
  let m := store R0 (csub (cscale two (m R0)) (m R2)) m in
  let m := store R3 (cadd (m R1) (T (kopp (y (m R3))) (x (m R3)))) m in
  let m := store R1 (csub (cscale two (m R1)) (m R3)) m in
  let res := m R1 in
  let m := store R1 (m R2) m in
  let m := store R2 res m in
  m.

Definition InvRad4B1 (R0 R2 R1 R3 : ptr) (m : mem) : mem :=
  let m := store R1 (csub (m R0) (m R1)) m in
  let m := store R0 (csub (cscale two (m R0)) (m R1)) m in
  let m := store R3 (csub (m R2) (m R3)) m in
  let m := store R2 (csub (cscale two (m R2)) (m R3)) m in
  let m := store R2 (csub (m R0) (m R2)) m in
  let m := store R0 (csub (cscale two (m R0)) (m R2)) m in
  let m := store R3 (cadd (m R1) (T (y (m R3)) (kopp (x (m R3))))) m in
  let m := store R1 (csub (cscale two (m R1)) (m R3)) m in
  let res := m R1 in
  let m := store R1 (m R2) m in
  let m := store R2 res m in
  m.

(** *** Reference transform *)

Definition cmul (a b : complex) : complex :=
  T (ksub (kmul (x a) (x b)) (kmul (y a) (y b)))
    (kadd (kmul (x a) (y b)) (kmul (y a) (x b))).

Definition copp (a : complex) : complex := T (kopp (x a)) (kopp (y a)).

Definition c1 : complex := T k1 k0.

(** The imaginary unit. *)
Definition ci : complex := T k0 k1.

Fixpoint cpow (w : complex) (n : nat) : complex :=
  match n with
  | O => c1
  | S n' => cmul w (cpow w n')
  end.

(** Output [k] of the 4-point transform with primitive root [w]:
    [sum_j x_j * w^(j*k)]. *)
Definition dft4 (w : complex) (x0 x1 x2 x3 : complex) (k : nat) : complex :=
  cadd (cadd (cadd x0 (cmul (cpow w k) x1)) (cmul (cpow w (2 * k)) x2))
       (cmul (cpow w (3 * k)) x3).

(** The four pointers name four different objects. *)
Definition distinct4 (p0 p1 p2 p3 : ptr) : Prop :=
  p0 <> p1 /\ p0 <> p2 /\ p0 <> p3 /\ p1 <> p2 /\ p1 <> p3 /\ p2 <> p3.

(** *** The decomposition the specification describes *)

(** A radix-2 butterfly: [(a, b)] becomes [(a + b, a - b)]. *)
Definition Rad2 (a b : complex) : complex * complex := (cadd a b, csub a b).

(** Rotation of the forward transform: [(x, y)] becomes [(-y, x)]. *)
Definition rotate_fwd (z : complex) : complex := T (kopp (y z)) (x z).

(** Rotation of the inverse transform: [(x, y)] becomes [(y, -x)]. *)
Definition rotate_inv (z : complex) : complex := T (y z) (kopp (x z)).

(** The literal [4]. *)
Definition four : K := kadd two two.

(** One assignment [( *p ) = e], where [e] reads the memory before it. *)
Definition assign (p : ptr) (e : mem -> complex) (m : mem) : mem :=
  store p (e m) m.

(** *** Memory lemmas *)

Lemma store_eq p v m : store p v m p = v.
Proof. unfold store. now rewrite Nat.eqb_refl. Qed.

Lemma store_ne p q v m : q <> p -> store p v m q = m q.
Proof. unfold store. intros Hne. now destruct (Nat.eqb_spec q p). Qed.

Lemma assign_eq p e m : assign p e m p = e m.
Proof. apply store_eq. Qed.

Lemma assign_ne p q e m : q <> p -> assign p e m q = m q.
Proof. apply store_ne. Qed.

(** The bodies as a sequence of assignments, last one outermost. *)
Lemma FwdRad4B1_assigns (R0 R2 R1 R3 : ptr) (m : mem) :
  FwdRad4B1 R0 R2 R1 R3 m =
  let m9 :=
    assign R1 (fun m => csub (cscale two (m R1)) (m R3))
   (assign R3 (fun m => cadd (m R1) (T (kopp (y (m R3))) (x (m R3))))
   (assign R0 (fun m => csub (cscale two (m R0)) (m R2))
   (assign R2 (fun m => csub (m R0) (m R2))
   (assign R2 (fun m => csub (cscale two (m R2)) (m R3))
   (assign R3 (fun m => csub (m R2) (m R3))
   (assign R0 (fun m => csub (cscale two (m R0)) (m R1))
   (assign R1 (fun m => csub (m R0) (m R1)) m))))))) in
  assign R2 (fun _ => m9 R1) (assign R1 (fun m => m R2) m9).
Proof. reflexivity. Qed.

Lemma InvRad4B1_assigns (R0 R2 R1 R3 : ptr) (m : mem) :
  InvRad4B1 R0 R2 R1 R3 m =
  let m9 :=
    assign R1 (fun m => csub (cscale two (m R1)) (m R3))
   (assign R3 (fun m => cadd (m R1) (T (y (m R3)) (kopp (x (m R3)))))
   (assign R0 (fun m => csub (cscale two (m R0)) (m R2))
   (assign R2 (fun m => csub (m R0) (m R2))
   (assign R2 (fun m => csub (cscale two (m R2)) (m R3))
   (assign R3 (fun m => csub (m R2) (m R3))
   (assign R0 (fun m => csub (cscale two (m R0)) (m R1))
   (assign R1 (fun m => csub (m R0) (m R1)) m))))))) in
  assign R2 (fun _ => m9 R1) (assign R1 (fun m => m R2) m9).
Proof. reflexivity. Qed.

Ltac mem_simpl :=
  cbv zeta;
  repeat (rewrite assign_eq || rewrite assign_ne by congruence).

Ltac cring :=
  unfold Rad2, rotate_fwd, rotate_inv, dft4, cpow, cmul, copp,
    cadd, csub, cscale, ci, c1, four, two;
  simpl; f_equal; ring.

(** Contents of the four slots after [FwdRad4B1], by parameter name. *)
Lemma FwdRad4B1_slots (m : mem) (R0 R2 R1 R3 : ptr) :
  distinct4 R0 R2 R1 R3 ->
  let r0 := m R0 in let r1 := m R1 in let r2 := m R2 in let r3 := m R3 in
  let m' := FwdRad4B1 R0 R2 R1 R3 m in
  m' R0 = cadd (cadd r0 r1) (cadd r2 r3) /\
  m' R1 = csub (cadd r0 r1) (cadd r2 r3) /\
  m' R2 = csub (csub r0 r1) (rotate_fwd (csub r2 r3)) /\
  m' R3 = cadd (csub r0 r1) (rotate_fwd (csub r2 r3)).
Proof.
  intros (H01 & H02 & H03 & H12 & H13 & H23); rewrite FwdRad4B1_assigns.
  repeat apply conj; mem_simpl; cring.
Qed.

Lemma InvRad4B1_slots (m : mem) (R0 R2 R1 R3 : ptr) :
  distinct4 R0 R2 R1 R3 ->
  let r0 := m R0 in let r1 := m R1 in let r2 := m R2 in let r3 := m R3 in
  let m' := InvRad4B1 R0 R2 R1 R3 m in
  m' R0 = cadd (cadd r0 r1) (cadd r2 r3) /\
  m' R1 = csub (cadd r0 r1) (cadd r2 r3) /\
  m' R2 = csub (csub r0 r1) (rotate_inv (csub r2 r3)) /\
  m' R3 = cadd (csub r0 r1) (rotate_inv (csub r2 r3)).
Proof.
  intros (H01 & H02 & H03 & H12 & H13 & H23); rewrite InvRad4B1_assigns.
  repeat apply conj; mem_simpl; cring.
Qed.

(** Both kernels write to the four slots only. *)
Lemma FwdRad4B1_frame (m : mem) (R0 R2 R1 R3 q : ptr) :
  q <> R0 -> q <> R2 -> q <> R1 -> q <> R3 ->
  FwdRad4B1 R0 R2 R1 R3 m q = m q.
Proof. intros; unfold FwdRad4B1; cbv zeta; now rewrite !store_ne by assumption. Qed.

Lemma InvRad4B1_frame (m : mem) (R0 R2 R1 R3 q : ptr) :
  q <> R0 -> q <> R2 -> q <> R1 -> q <> R3 ->
  InvRad4B1 R0 R2 R1 R3 m q = m q.
Proof. intros; unfold InvRad4B1; cbv zeta; now rewrite !store_ne by assumption. Qed.


(** Multiplying by [i] is the forward rotation, multiplying by [-i] the
    inverse one. *)
Lemma rotate_fwd_is_mul_i (z : complex) : rotate_fwd z = cmul ci z.
Proof. destruct z; cring. Qed.

Lemma rotate_inv_is_mul_neg_i (z : complex) : rotate_inv z = cmul (copp ci) z.
Proof. destruct z; cring. Qed.

Lemma cmul_ci (a b : K) : cmul ci (T a b) = T (kopp b) a.
Proof. cring. Qed.

Lemma cmul_neg_ci (a b : K) : cmul (copp ci) (T a b) = T b (kopp a).
Proof. cring. Qed.

(** C1: with pointers to [x0], [x1], [x2], [x3] passed as first to fourth
    argument, [FwdRad4B1] leaves in the four slots the forward 4-point
    transform in natural order ([X0 = x0+x1+x2+x3],
    [X1 = x0 - i*x1 - x2 + i*x3], [X2 = x0 - x1 + x2 - x3],
    [X3 = x0 + i*x1 - x2 - i*x3]), which is [dft4] with root [-i]; and
    [InvRad4B1] leaves the transform with the conjugate root [i], without
    any scaling. *)
Theorem radix4_is_dft4 (m : mem) (p0 p1 p2 p3 : ptr) :
  distinct4 p0 p1 p2 p3 ->
  let x0 := m p0 in let x1 := m p1 in let x2 := m p2 in let x3 := m p3 in
  let f := FwdRad4B1 p0 p1 p2 p3 m in
  let g := InvRad4B1 p0 p1 p2 p3 m in
  (f p0 = cadd (cadd (cadd x0 x1) x2) x3 /\
   f p1 = cadd (csub (csub x0 (cmul ci x1)) x2) (cmul ci x3) /\
   f p2 = csub (cadd (csub x0 x1) x2) x3 /\
   f p3 = csub (csub (cadd x0 (cmul ci x1)) x2) (cmul ci x3)) /\
  (f p0 = dft4 (copp ci) x0 x1 x2 x3 0 /\
   f p1 = dft4 (copp ci) x0 x1 x2 x3 1 /\
   f p2 = dft4 (copp ci) x0 x1 x2 x3 2 /\
   f p3 = dft4 (copp ci) x0 x1 x2 x3 3) /\
  (g p0 = dft4 ci x0 x1 x2 x3 0 /\
   g p1 = dft4 ci x0 x1 x2 x3 1 /\
   g p2 = dft4 ci x0 x1 x2 x3 2 /\
   g p3 = dft4 ci x0 x1 x2 x3 3).
Proof.
  intros Hd x0 x1 x2 x3 f g.
  destruct (FwdRad4B1_slots m p0 p1 p2 p3 Hd) as (F0 & F2 & F1 & F3).
  destruct (InvRad4B1_slots m p0 p1 p2 p3 Hd) as (G0 & G2 & G1 & G3).
  subst f g; rewrite F0, F1, F2, F3, G0, G1, G2, G3; subst x0 x1 x2 x3.
  unfold dft4; simpl cpow; unfold c1.
  rewrite ?cmul_ci, ?cmul_neg_ci.
  repeat apply conj; cring.
Qed.

(** C9: [InvRad4B1] applied after [FwdRad4B1] to the same four slots, the
    pointers in the same argument order, leaves 4 times the original value
    in each slot. *)
Theorem InvRad4B1_after_FwdRad4B1 (m : mem) (p0 p1 p2 p3 : ptr) :
  distinct4 p0 p1 p2 p3 ->
  let m' := InvRad4B1 p0 p1 p2 p3 (FwdRad4B1 p0 p1 p2 p3 m) in
  m' p0 = cscale four (m p0) /\
  m' p1 = cscale four (m p1) /\
  m' p2 = cscale four (m p2) /\
  m' p3 = cscale four (m p3).
Proof.
  intros Hd m'.
  destruct (FwdRad4B1_slots m p0 p1 p2 p3 Hd) as (F0 & F2 & F1 & F3).
  destruct (InvRad4B1_slots (FwdRad4B1 p0 p1 p2 p3 m) p0 p1 p2 p3 Hd)
    as (G0 & G2 & G1 & G3).
  subst m'; rewrite G0, G1, G2, G3, F0, F1, F2, F3.
  repeat apply conj; cring.
Qed.

(** *** Further properties of the two kernels *)

(** The complex conjugate. *)
Definition cconj (z : complex) : complex := T (x z) (kopp (y z)).

(** The squared modulus [x^2 + y^2]. *)
Definition nrm2 (z : complex) : K := kadd (kmul (x z) (x z)) (kmul (y z) (y z)).

Ltac kring :=
  unfold nrm2, cconj, Rad2, rotate_fwd, rotate_inv, cmul, copp,
    cadd, csub, cscale, ci, c1, four, two;
  simpl; ring.

(** Neither kernel writes to an address other than the four it is given,
    whether or not some of the four coincide. *)
Theorem Rad4B1_writes_four_slots_only (m : mem) (R0 R2 R1 R3 q : ptr) :
  q <> R0 -> q <> R2 -> q <> R1 -> q <> R3 ->
  FwdRad4B1 R0 R2 R1 R3 m q = m q /\ InvRad4B1 R0 R2 R1 R3 m q = m q.
Proof.
  intros H0 H2 H1 H3. split.
  - now apply FwdRad4B1_frame.
  - now apply InvRad4B1_frame.
Qed.

(** What the kernels leave in the four slots depends on the contents of
    the four slots only. *)
Theorem Rad4B1_reads_four_slots_only (m m' : mem) (p0 p1 p2 p3 : ptr) :
  distinct4 p0 p1 p2 p3 ->
  m p0 = m' p0 -> m p1 = m' p1 -> m p2 = m' p2 -> m p3 = m' p3 ->
  forall q : ptr, q = p0 \/ q = p1 \/ q = p2 \/ q = p3 ->
    FwdRad4B1 p0 p1 p2 p3 m q = FwdRad4B1 p0 p1 p2 p3 m' q /\
    InvRad4B1 p0 p1 p2 p3 m q = InvRad4B1 p0 p1 p2 p3 m' q.
Proof.
  intros Hd E0 E1 E2 E3 q Hq.
  destruct (FwdRad4B1_slots m p0 p1 p2 p3 Hd) as (F0 & F2 & F1 & F3).
  destruct (FwdRad4B1_slots m' p0 p1 p2 p3 Hd) as (F0' & F2' & F1' & F3').
  destruct (InvRad4B1_slots m p0 p1 p2 p3 Hd) as (G0 & G2 & G1 & G3).
  destruct (InvRad4B1_slots m' p0 p1 p2 p3 Hd) as (G0' & G2' & G1' & G3').
  destruct Hq as [-> | [-> | [-> | ->]]];
    rewrite ?F0, ?F1, ?F2, ?F3, ?F0', ?F1', ?F2', ?F3',
            ?G0, ?G1, ?G2, ?G3, ?G0', ?G1', ?G2', ?G3', E0, E1, E2, E3;
    split; reflexivity.
Qed.

(** The inverse kernel leaves what the forward kernel leaves, with the
    contents of the second and the fourth slot exchanged. *)
Theorem InvRad4B1_is_FwdRad4B1_reversed (m : mem) (p0 p1 p2 p3 : ptr) :
  distinct4 p0 p1 p2 p3 ->
  let f := FwdRad4B1 p0 p1 p2 p3 m in
  let g := InvRad4B1 p0 p1 p2 p3 m in
  g p0 = f p0 /\ g p1 = f p3 /\ g p2 = f p2 /\ g p3 = f p1.
Proof.
  intros Hd f g.
  destruct (FwdRad4B1_slots m p0 p1 p2 p3 Hd) as (F0 & F2 & F1 & F3).
  destruct (InvRad4B1_slots m p0 p1 p2 p3 Hd) as (G0 & G2 & G1 & G3).
  subst f g; rewrite F0, F1, F2, F3, G0, G1, G2, G3.
  repeat apply conj; cring.
Qed.

(** The inverse kernel is the forward kernel between two conjugations. *)
Theorem InvRad4B1_is_conjugated_FwdRad4B1 (m : mem) (p0 p1 p2 p3 : ptr) :
  distinct4 p0 p1 p2 p3 ->
  let f := FwdRad4B1 p0 p1 p2 p3 (fun q => cconj (m q)) in
  let g := InvRad4B1 p0 p1 p2 p3 m in
  g p0 = cconj (f p0) /\ g p1 = cconj (f p1) /\
  g p2 = cconj (f p2) /\ g p3 = cconj (f p3).
Proof.
  intros Hd f g.
  destruct (FwdRad4B1_slots (fun q => cconj (m q)) p0 p1 p2 p3 Hd)
    as (F0 & F2 & F1 & F3).
  destruct (InvRad4B1_slots m p0 p1 p2 p3 Hd) as (G0 & G2 & G1 & G3).
  subst f g; rewrite F0, F1, F2, F3, G0, G1, G2, G3.
  unfold cconj; repeat apply conj; cring.
Qed.

(** The forward kernel applied twice leaves 4 times the input in reversed
    order: the first and third slot keep their own value, the second and
    fourth exchange theirs. *)
Theorem FwdRad4B1_twice (m : mem) (p0 p1 p2 p3 : ptr) :
  distinct4 p0 p1 p2 p3 ->
  let m' := FwdRad4B1 p0 p1 p2 p3 (FwdRad4B1 p0 p1 p2 p3 m) in
  m' p0 = cscale four (m p0) /\
  m' p1 = cscale four (m p3) /\
  m' p2 = cscale four (m p2) /\
  m' p3 = cscale four (m p1).
Proof.
  intros Hd m'.
  destruct (FwdRad4B1_slots m p0 p1 p2 p3 Hd) as (F0 & F2 & F1 & F3).
  destruct (FwdRad4B1_slots (FwdRad4B1 p0 p1 p2 p3 m) p0 p1 p2 p3 Hd)
    as (G0 & G2 & G1 & G3).
  subst m'; rewrite G0, G1, G2, G3, F0, F1, F2, F3.
  repeat apply conj; cring.
Qed.

(** The forward kernel applied after the inverse one leaves 4 times the
    original value in each slot. *)
Theorem FwdRad4B1_after_InvRad4B1 (m : mem) (p0 p1 p2 p3 : ptr) :
  distinct4 p0 p1 p2 p3 ->
  let m' := FwdRad4B1 p0 p1 p2 p3 (InvRad4B1 p0 p1 p2 p3 m) in
  m' p0 = cscale four (m p0) /\
  m' p1 = cscale four (m p1) /\
  m' p2 = cscale four (m p2) /\
  m' p3 = cscale four (m p3).
Proof.
  intros Hd m'.
  destruct (InvRad4B1_slots m p0 p1 p2 p3 Hd) as (F0 & F2 & F1 & F3).
  destruct (FwdRad4B1_slots (InvRad4B1 p0 p1 p2 p3 m) p0 p1 p2 p3 Hd)
    as (G0 & G2 & G1 & G3).
  subst m'; rewrite G0, G1, G2, G3, F0, F1, F2, F3.
  repeat apply conj; cring.
Qed.

(** Both kernels are linear over the complex numbers: on the memory
    [c * m1 + m2] they leave [c] times what they leave on [m1] plus what
    they leave on [m2]. *)
Theorem Rad4B1_linear (c : complex) (m1 m2 : mem) (p0 p1 p2 p3 : ptr) :
  distinct4 p0 p1 p2 p3 ->
  let m := fun q => cadd (cmul c (m1 q)) (m2 q) in
  forall q : ptr, q = p0 \/ q = p1 \/ q = p2 \/ q = p3 ->
    FwdRad4B1 p0 p1 p2 p3 m q
    = cadd (cmul c (FwdRad4B1 p0 p1 p2 p3 m1 q)) (FwdRad4B1 p0 p1 p2 p3 m2 q) /\
    InvRad4B1 p0 p1 p2 p3 m q
    = cadd (cmul c (InvRad4B1 p0 p1 p2 p3 m1 q)) (InvRad4B1 p0 p1 p2 p3 m2 q).
Proof.
  intros Hd m q Hq.
  destruct (FwdRad4B1_slots m p0 p1 p2 p3 Hd) as (F0 & F2 & F1 & F3).
  destruct (FwdRad4B1_slots m1 p0 p1 p2 p3 Hd) as (A0 & A2 & A1 & A3).
  destruct (FwdRad4B1_slots m2 p0 p1 p2 p3 Hd) as (B0 & B2 & B1 & B3).
  destruct (InvRad4B1_slots m p0 p1 p2 p3 Hd) as (G0 & G2 & G1 & G3).
  destruct (InvRad4B1_slots m1 p0 p1 p2 p3 Hd) as (C0 & C2 & C1 & C3).
  destruct (InvRad4B1_slots m2 p0 p1 p2 p3 Hd) as (D0 & D2 & D1 & D3).
  destruct Hq as [-> | [-> | [-> | ->]]];
    rewrite ?F0, ?F1, ?F2, ?F3, ?A0, ?A1, ?A2, ?A3, ?B0, ?B1, ?B2, ?B3,
            ?G0, ?G1, ?G2, ?G3, ?C0, ?C1, ?C2, ?C3, ?D0, ?D1, ?D2, ?D3;
    subst m; split; cring.
Qed.

(** On real input (all four imaginary parts 0) the forward kernel leaves
    real values in the first and third slot and conjugate values in the
    second and fourth. *)
Theorem FwdRad4B1_real_input (m : mem) (p0 p1 p2 p3 : ptr) :
  distinct4 p0 p1 p2 p3 ->
  y (m p0) = k0 -> y (m p1) = k0 -> y (m p2) = k0 -> y (m p3) = k0 ->
  let f := FwdRad4B1 p0 p1 p2 p3 m in
  y (f p0) = k0 /\ y (f p2) = k0 /\ f p3 = cconj (f p1).
Proof.
  intros Hd Y0 Y1 Y2 Y3 f.
  destruct (FwdRad4B1_slots m p0 p1 p2 p3 Hd) as (F0 & F2 & F1 & F3).
  subst f; rewrite F0, F1, F2, F3.
  destruct (m p0) as [a0 b0], (m p1) as [a1 b1],
           (m p2) as [a2 b2], (m p3) as [a3 b3].
  simpl in Y0, Y1, Y2, Y3; subst b0 b1 b2 b3.
  repeat apply conj; [kring | kring | unfold cconj; cring].
Qed.

(** The squared moduli of what the forward kernel leaves add up to 4 times
    those of the input, and the same for the inverse kernel. *)
Theorem Rad4B1_energy (m : mem) (p0 p1 p2 p3 : ptr) :
  distinct4 p0 p1 p2 p3 ->
  let e := fun m' : mem =>
    kadd (kadd (nrm2 (m' p0)) (nrm2 (m' p1))) (kadd (nrm2 (m' p2)) (nrm2 (m' p3))) in
  e (FwdRad4B1 p0 p1 p2 p3 m) = kmul four (e m) /\
  e (InvRad4B1 p0 p1 p2 p3 m) = kmul four (e m).
Proof.
  intros Hd e.
  destruct (FwdRad4B1_slots m p0 p1 p2 p3 Hd) as (F0 & F2 & F1 & F3).
  destruct (InvRad4B1_slots m p0 p1 p2 p3 Hd) as (G0 & G2 & G1 & G3).
  subst e; cbv beta; rewrite F0, F1, F2, F3, G0, G1, G2, G3.
  destruct (m p0) as [a0 b0], (m p1) as [a1 b1],
           (m p2) as [a2 b2], (m p3) as [a3 b3].
  split; kring.
Qed.

(** *** The kernels as two levels of radix-2 butterflies *)

(** The group of two statements the kernels repeat on two slots [a] and
    [b]: [( *b ) = ( *a ) - ( *b ); ( *a ) = 2.0 * ( *a ) - ( *b );]. *)
Definition Rad2B1 (a b : ptr) (m : mem) : mem :=
  let m := store b (csub (m a) (m b)) m in
  store a (csub (cscale two (m a)) (m b)) m.

(** The same group with the value of [b] rotated by [rot] as it enters:
    [( *b ) = ( *a ) + rot( *b ); ( *a ) = 2.0 * ( *a ) - ( *b );]. *)
Definition Rad2B1_rotated (rot : complex -> complex) (a b : ptr) (m : mem) : mem :=
  let m := store b (cadd (m a) (rot (m b))) m in
  store a (csub (cscale two (m a)) (m b)) m.

(** [res = ( *a ); ( *a ) = ( *b ); ( *b ) = res;] *)
Definition exchange (a b : ptr) (m : mem) : mem :=
  let res := m a in
  let m := store a (m b) m in
  store b res m.

(** Two levels of radix-2 butterflies on the slots [R0], [R1], [R2], [R3]:
    the first level on [(R0, R1)] and [(R2, R3)], the second on [(R0, R2)]
    and [(R1, R3)], the rotation [rot] applied between the levels to what
    the first level left in [R3]; the two inner slots are exchanged at the
    end. *)
Definition two_level_radix2 (rot : complex -> complex)
    (R0 R1 R2 R3 : ptr) (m : mem) : mem :=
  let m := Rad2B1 R0 R1 m in
  let m := Rad2B1 R2 R3 m in
  let m := Rad2B1 R0 R2 m in
  let m := Rad2B1_rotated rot R1 R3 m in
  exchange R1 R2 m.

(** In exact arithmetic the repeated group is the radix-2 butterfly: the
    sum in one slot and the difference in the other. *)
Lemma Rad2B1_exact (rot : complex -> complex) (a b : ptr) (m : mem) :
  a <> b ->
  (Rad2B1 a b m a, Rad2B1 a b m b) = Rad2 (m a) (m b) /\
  (Rad2B1_rotated rot a b m b, Rad2B1_rotated rot a b m a) = Rad2 (m a) (rot (m b)).
Proof.
  intros Hne. unfold Rad2B1, Rad2B1_rotated, Rad2; cbv zeta.
  rewrite !store_eq, !(store_ne a b) by congruence.
  rewrite !store_eq, !(store_ne b a) by congruence.
  split; f_equal; cring.
Qed.

End Butterfly.

(** *** The kernels run on Gaussian integers *)

Arguments T {K} _ _.
Arguments x {K} _.
Arguments y {K} _.

Definition ZFwdRad4B1 := FwdRad4B1 Z 1%Z Z.add Z.mul Z.sub Z.opp.
Definition ZInvRad4B1 := InvRad4B1 Z 1%Z Z.add Z.mul Z.sub Z.opp.

(** Slots 0..3 hold [1+2i], [3-i], [-2+5i], [4i]; every other slot holds 0. *)
Definition sample_mem : mem Z :=
  fun p =>
    match p with
    | 0 => T 1%Z 2%Z
    | 1 => T 3%Z (-1)%Z
    | 2 => T (-2)%Z 5%Z
    | 3 => T 0%Z 4%Z
    | _ => T 0%Z 0%Z
    end.

Definition read4 (m : mem Z) : list (complex Z) := map m (seq 0 4).

Example ZFwdRad4B1_sample :
  read4 (ZFwdRad4B1 0 1 2 3 sample_mem) = [T 2 10; T (-2) (-6); T (-4) 4; T 8 0]%Z.
Proof. reflexivity. Qed.

Example ZInvRad4B1_sample :
  read4 (ZInvRad4B1 0 1 2 3 sample_mem) = [T 2 10; T 8 0; T (-4) 4; T (-2) (-6)]%Z.
Proof. reflexivity. Qed.

Example ZInv_after_ZFwd_sample :
  read4 (ZInvRad4B1 0 1 2 3 (ZFwdRad4B1 0 1 2 3 sample_mem))
  = [T 4 8; T 12 (-4); T (-8) 20; T 0 16]%Z.
Proof. reflexivity. Qed.

(** When two of the pointers name the same slot the result is another one:
    the statements about the kernels need four different slots. *)
Example ZFwdRad4B1_aliased :
  read4 (ZFwdRad4B1 0 1 1 3 sample_mem) = [T 2 8; T 5 (-4); T (-2) 5; T 7 (-8)]%Z.
Proof. reflexivity. Qed.

Lemma radix4_is_dft4_witness :
  distinct4 0 1 2 3 /\
  ZFwdRad4B1 0 1 2 3 sample_mem 1
  = dft4 Z 0%Z 1%Z Z.add Z.mul Z.sub (copp Z Z.opp (ci Z 0%Z 1%Z))
      (sample_mem 0) (sample_mem 1) (sample_mem 2) (sample_mem 3) 1.
Proof.
  split; [unfold distinct4; repeat split; discriminate |].
  apply (radix4_is_dft4 Z 0%Z 1%Z Z.add Z.mul Z.sub Z.opp Zth sample_mem 0 1 2 3).
  unfold distinct4; repeat split; discriminate.
Defined.

Lemma InvRad4B1_after_FwdRad4B1_witness :
  distinct4 0 1 2 3 /\
  ZInvRad4B1 0 1 2 3 (ZFwdRad4B1 0 1 2 3 sample_mem) 2
  = cscale Z Z.mul 4%Z (sample_mem 2).
Proof.
  split; [unfold distinct4; repeat split; discriminate |].
  apply (InvRad4B1_after_FwdRad4B1 Z 0%Z 1%Z Z.add Z.mul Z.sub Z.opp Zth
           sample_mem 0 1 2 3).
  unfold distinct4; repeat split; discriminate.
Defined.


(** *** The structure of the kernels *)

(** The two rotations, written out. *)
Definition Zrotate_fwd (z : complex Z) : complex Z := T (Z.opp (y z)) (x z).
Definition Zrotate_inv (z : complex Z) : complex Z := T (y z) (Z.opp (x z)).

(** C2: for every type of scalars and every choice of its operations, with
    no law of arithmetic assumed, statement by statement [FwdRad4B1] is two
    levels of radix-2 butterflies with the rotation [(x, y) -> (-y, x)]
    between the levels, and [InvRad4B1] is the same with the rotation
    [(x, y) -> (y, -x)].  The sign matters: on the sample memory each
    kernel differs from the two levels taken with the other rotation.  In
    exact arithmetic the repeated group of two statements leaves the sum
    and the difference of its two slots. *)
Theorem radix4_is_two_level_radix2_rotated :
  (forall (K : Type) (k1 : K) (kadd kmul ksub : K -> K -> K) (kopp : K -> K)
          (m : mem K) (R0 R2 R1 R3 : ptr),
     FwdRad4B1 K k1 kadd kmul ksub kopp R0 R2 R1 R3 m
     = two_level_radix2 K k1 kadd kmul ksub
         (fun z => T (kopp (y z)) (x z)) R0 R1 R2 R3 m /\
     InvRad4B1 K k1 kadd kmul ksub kopp R0 R2 R1 R3 m
     = two_level_radix2 K k1 kadd kmul ksub
         (fun z => T (y z) (kopp (x z))) R0 R1 R2 R3 m) /\
  (read4 (ZFwdRad4B1 0 1 2 3 sample_mem)
   <> read4 (two_level_radix2 Z 1%Z Z.add Z.mul Z.sub Zrotate_inv 0 2 1 3 sample_mem) /\
   read4 (ZInvRad4B1 0 1 2 3 sample_mem)
   <> read4 (two_level_radix2 Z 1%Z Z.add Z.mul Z.sub Zrotate_fwd 0 2 1 3 sample_mem)) /\
  (forall (K : Type) (k0 k1 : K) (kadd kmul ksub : K -> K -> K) (kopp : K -> K),
     ring_theory k0 k1 kadd kmul ksub kopp eq ->
     forall (rot : complex K -> complex K) (a b : ptr) (m : mem K),
       a <> b ->
       (Rad2B1 K k1 kadd kmul ksub a b m a, Rad2B1 K k1 kadd kmul ksub a b m b)
       = Rad2 K kadd ksub (m a) (m b) /\
       (Rad2B1_rotated K k1 kadd kmul ksub rot a b m b,
        Rad2B1_rotated K k1 kadd kmul ksub rot a b m a)
       = Rad2 K kadd ksub (m a) (rot (m b))).
Proof.
  split; [| split].
  - intros K k1 kadd kmul ksub kopp m R0 R2 R1 R3. split; reflexivity.
  - split; intros H; vm_compute in H; discriminate.
  - intros K k0 k1 kadd kmul ksub kopp Kring rot a b m Hne.
    now apply (Rad2B1_exact K k0 k1 kadd kmul ksub kopp Kring).
Qed.

(** Each kernel on the sample memory, next to the two levels taken with
    its own rotation and with the other one. *)
Example two_level_radix2_sample :
  read4 (two_level_radix2 Z 1%Z Z.add Z.mul Z.sub Zrotate_fwd 0 2 1 3 sample_mem)
  = [T 2 10; T (-2) (-6); T (-4) 4; T 8 0]%Z /\
  read4 (two_level_radix2 Z 1%Z Z.add Z.mul Z.sub Zrotate_inv 0 2 1 3 sample_mem)
  = [T 2 10; T 8 0; T (-4) 4; T (-2) (-6)]%Z.
Proof. split; reflexivity. Qed.

(** *** The further properties on Gaussian integers *)

(** A memory of real values: slot [p] holds [p + 1]. *)
Definition real_mem : mem Z := fun p => T (Z.of_nat p + 1)%Z 0%Z.

(** The sum of the squared moduli of slots 0 to 3. *)
Definition Zenergy (m : mem Z) : Z :=
  Z.add (Z.add (nrm2 Z Z.add Z.mul (m 0)) (nrm2 Z Z.add Z.mul (m 1)))
        (Z.add (nrm2 Z Z.add Z.mul (m 2)) (nrm2 Z Z.add Z.mul (m 3))).

Example Zenergy_sample :
  Zenergy sample_mem = 60%Z /\ Zenergy (ZFwdRad4B1 0 1 2 3 sample_mem) = 240%Z.
Proof. split; reflexivity. Qed.

Example ZFwdRad4B1_real_mem :
  read4 (ZFwdRad4B1 0 1 2 3 real_mem) = [T 10 0; T (-2) 2; T (-2) 0; T (-2) (-2)]%Z.
Proof. reflexivity. Qed.

Lemma Rad4B1_writes_four_slots_only_witness :
  ZFwdRad4B1 0 1 2 3 sample_mem 7 = sample_mem 7 /\
  ZInvRad4B1 0 1 2 3 sample_mem 7 = sample_mem 7.
Proof.
  apply (Rad4B1_writes_four_slots_only Z 1%Z Z.add Z.mul Z.sub Z.opp
           sample_mem 0 1 2 3 7); discriminate.
Defined.

Lemma Rad4B1_reads_four_slots_only_witness :
  ZFwdRad4B1 0 1 2 3 sample_mem 1
  = ZFwdRad4B1 0 1 2 3 (store Z 9 (T 5%Z 5%Z) sample_mem) 1 /\
  ZInvRad4B1 0 1 2 3 sample_mem 1
  = ZInvRad4B1 0 1 2 3 (store Z 9 (T 5%Z 5%Z) sample_mem) 1.
Proof.
  apply (Rad4B1_reads_four_slots_only Z 0%Z 1%Z Z.add Z.mul Z.sub Z.opp Zth
           sample_mem (store Z 9 (T 5%Z 5%Z) sample_mem) 0 1 2 3);
    [unfold distinct4; repeat split; discriminate
    | reflexivity | reflexivity | reflexivity | reflexivity
    | right; left; reflexivity].
Defined.

Lemma InvRad4B1_is_FwdRad4B1_reversed_witness :
  distinct4 0 1 2 3 /\
  ZInvRad4B1 0 1 2 3 sample_mem 1 = ZFwdRad4B1 0 1 2 3 sample_mem 3.
Proof.
  split; [unfold distinct4; repeat split; discriminate |].
  apply (InvRad4B1_is_FwdRad4B1_reversed Z 0%Z 1%Z Z.add Z.mul Z.sub Z.opp Zth
           sample_mem 0 1 2 3).
  unfold distinct4; repeat split; discriminate.
Defined.

Lemma InvRad4B1_is_conjugated_FwdRad4B1_witness :
  distinct4 0 1 2 3 /\
  ZInvRad4B1 0 1 2 3 sample_mem 1
  = cconj Z Z.opp (ZFwdRad4B1 0 1 2 3 (fun q => cconj Z Z.opp (sample_mem q)) 1).
Proof.
  split; [unfold distinct4; repeat split; discriminate |].
  apply (InvRad4B1_is_conjugated_FwdRad4B1 Z 0%Z 1%Z Z.add Z.mul Z.sub Z.opp Zth
           sample_mem 0 1 2 3).
  unfold distinct4; repeat split; discriminate.
Defined.

Lemma FwdRad4B1_twice_witness :
  distinct4 0 1 2 3 /\
  ZFwdRad4B1 0 1 2 3 (ZFwdRad4B1 0 1 2 3 sample_mem) 1
  = cscale Z Z.mul 4%Z (sample_mem 3).
Proof.
  split; [unfold distinct4; repeat split; discriminate |].
  apply (FwdRad4B1_twice Z 0%Z 1%Z Z.add Z.mul Z.sub Z.opp Zth sample_mem 0 1 2 3).
  unfold distinct4; repeat split; discriminate.
Defined.

Lemma FwdRad4B1_after_InvRad4B1_witness :
  distinct4 0 1 2 3 /\
  ZFwdRad4B1 0 1 2 3 (ZInvRad4B1 0 1 2 3 sample_mem) 3
  = cscale Z Z.mul 4%Z (sample_mem 3).
Proof.
  split; [unfold distinct4; repeat split; discriminate |].
  apply (FwdRad4B1_after_InvRad4B1 Z 0%Z 1%Z Z.add Z.mul Z.sub Z.opp Zth
           sample_mem 0 1 2 3).
  unfold distinct4; repeat split; discriminate.
Defined.

Lemma Rad4B1_linear_witness :
  distinct4 0 1 2 3 /\
  ZFwdRad4B1 0 1 2 3
    (fun q => cadd Z Z.add (cmul Z Z.add Z.mul Z.sub (T 2%Z (-3)%Z) (sample_mem q))
                (real_mem q)) 3
  = cadd Z Z.add
      (cmul Z Z.add Z.mul Z.sub (T 2%Z (-3)%Z) (ZFwdRad4B1 0 1 2 3 sample_mem 3))
      (ZFwdRad4B1 0 1 2 3 real_mem 3).
Proof.
  split; [unfold distinct4; repeat split; discriminate |].
  apply (Rad4B1_linear Z 0%Z 1%Z Z.add Z.mul Z.sub Z.opp Zth (T 2%Z (-3)%Z)
           sample_mem real_mem 0 1 2 3);
    [unfold distinct4; repeat split; discriminate
    | right; right; right; reflexivity].
Defined.

Lemma FwdRad4B1_real_input_witness :
  distinct4 0 1 2 3 /\
  ZFwdRad4B1 0 1 2 3 real_mem 3 = cconj Z Z.opp (ZFwdRad4B1 0 1 2 3 real_mem 1).
Proof.
  split; [unfold distinct4; repeat split; discriminate |].
  apply (FwdRad4B1_real_input Z 0%Z 1%Z Z.add Z.mul Z.sub Z.opp Zth
           real_mem 0 1 2 3);
    [unfold distinct4; repeat split; discriminate
    | reflexivity | reflexivity | reflexivity | reflexivity].
Defined.

Lemma Rad4B1_energy_witness :
  distinct4 0 1 2 3 /\
  Zenergy (ZFwdRad4B1 0 1 2 3 sample_mem) = (4 * Zenergy sample_mem)%Z.
Proof.
  split; [unfold distinct4; repeat split; discriminate |].
  apply (Rad4B1_energy Z 0%Z 1%Z Z.add Z.mul Z.sub Z.opp Zth sample_mem 0 1 2 3).
  unfold distinct4; repeat split; discriminate.
Defined.

End Radix4.

(* ===================================================================== *)
(** ** rtc_chirp_kernel.cpp and the compile cache behind it               *)
(* ===================================================================== *)

Module Rtc.

(** Modelled from the spec: the enumeration [rocfft_precision] (declared in
    [rocfft.h]); the numeric precision is one of single, double, half. *)
Inductive rocfft_precision : Type :=
  | rocfft_precision_single
  | rocfft_precision_double
  | rocfft_precision_half.

#[global] Instance byte_eq_dec : EqDecision Byte.byte := Byte.byte_eq_dec.

(** A compiled code object: an opaque byte sequence. *)
Abbreviation binary := (list Byte.byte).

(** Modelled from the spec: the cache key of section 3,
    (entry-point name, target architecture identifier, generator
    signature). *)
Abbreviation key := (string * string * string)%type.

(** What the pipeline does outside the cache, in the order it does it. *)
Inductive event : Type :=
  | EvGenerate (kernel_name : string)
  | EvCompile (src arch : string)
  | EvStoreRejected (k : key).

(** The cache and the record of what was invoked. *)
Record world : Type := World { cache : gmap key binary; trace : list event }.

Definition emit (e : event) (w : world) : world :=
  World (cache w) (trace w ++ [e]).

(** Modelled from the spec: [lookup(key) -> binary | miss] of section 4.3
    ([rtc_cache.h] is not part of the sources). *)
Definition lookup (k : key) (c : gmap key binary) : option binary := c !! k.

(** Modelled from the spec: [store(key, binary)] of section 4.3.  Storing
    byte-identical content again is a no-op; storing other content under a
    key that has an entry is rejected and logged, the entry stays. *)
Definition store (k : key) (b : binary) (w : world) : world :=
  match lookup k (cache w) with
  | None => World (<[k := b]> (cache w)) (trace w)
  | Some b' => if decide (b' = b) then w else emit (EvStoreRejected k) w
  end.

(** The cache after a history of stores, oldest first, from an empty one. *)
Definition replay (h : list (key * binary)) : world :=
  fold_left (fun w kb => store (fst kb) (snd kb) w) h (World ∅ []).

(** A compilation error: the compiler's diagnostics and the source that
    failed. *)
Inductive error : Type :=
  | CompileFailure (diagnostics : string) (src : string).

(** [kernel_src_gen_t]: the deferred generator, called with the kernel
    name. *)
Definition kernel_src_gen_t : Type := string -> string.

(** The external device compiler: source text and target architecture to
    a binary or diagnostics. *)
Definition compiler_t : Type := string -> string -> binary + string.

(** Modelled from the spec: the pipeline [compile(entry_point_name,
    target_arch, generator_fn, generator_signature)] of section 4.4, the
    [cached_compile] of [rtc_cache.h]. *)
Definition cached_compile (compiler : compiler_t)
    (kernel_name gpu_arch : string) (generate_src : kernel_src_gen_t)
    (generator_sum : string) (w : world) : (binary + error) * world :=
  let k := (kernel_name, gpu_arch, generator_sum) in
  match lookup k (cache w) with
  | Some code => (inl code, w)
  | None =>
      let src := generate_src kernel_name in
      let w := emit (EvGenerate kernel_name) w in
      let w := emit (EvCompile src gpu_arch) w in
      match compiler src gpu_arch with
      | inl code => (inl code, store k code w)
      | inr diagnostics => (inr (CompileFailure diagnostics src), w)
      end
  end.

(** [dim3] of the HIP runtime; [{}] is its default value. *)
Record dim3 : Type := Dim3 { dim_x : N; dim_y : N; dim_z : N }.
Definition dim3_default : dim3 := Dim3 1 1 1.

Record RTCKernelChirp : Type := MkRTCKernelChirp {
  kernel_name : string;
  code : binary;
  gridDim : dim3;
  blockDim : dim3
}.

Section Generate.

(** Declared in [device/kernel-generator-embed.h] and the chirp generator
    header, not part of the sources: the name of the chirp kernel for a
    precision, its source text, and the checksum of the generator. *)
Variable chirp_rtc_kernel_name : rocfft_precision -> string.
Variable chirp_rtc : string -> rocfft_precision -> string.
Variable generator_sum : string.

Variable compiler : compiler_t.

(** [RTCKernelChirp::generate]; an error of [cached_compile] is an
    exception that passes through. *)
Definition generate (gpu_arch : string) (precision : rocfft_precision)
    (w : world) : (RTCKernelChirp + error) * world :=
  let kernel_name := chirp_rtc_kernel_name precision in
  let generator : kernel_src_gen_t :=
    fun kernel_name => chirp_rtc kernel_name precision in
  match cached_compile compiler kernel_name gpu_arch generator generator_sum w with
  | (inl code, w') =>
      (inl (MkRTCKernelChirp kernel_name code dim3_default dim3_default), w')
  | (inr e, w') => (inr e, w')
  end.

End Generate.

(** *** A toy compiler and the scenarios of the specification *)

(** Accepts every source but the empty one; the binary is one byte that
    tells the architectures ["A"] and ["B"] apart. *)
Definition toy_compiler : compiler_t :=
  fun src arch =>
    if decide (src = "") then inr "error: empty translation unit"
    else inl [if decide (arch = "A") then Byte.x0a else Byte.x0b].

Definition toy_name (p : rocfft_precision) : string :=
  match p with
  | rocfft_precision_single => "chirp_sp"
  | rocfft_precision_double => "chirp_dp"
  | rocfft_precision_half => "chirp_hp"
  end.

Definition toy_src (name : string) (p : rocfft_precision) : string :=
  "__global__ void " +:+ name +:+ "();".

Definition toy_generate (sum : string) :=
  generate toy_name toy_src sum toy_compiler.

Definition world0 : world := World ∅ [].

(** The world after one successful request for the single-precision
    kernel on architecture ["A"] under signature ["v1"]. *)
Definition world1 : world := snd (toy_generate "v1" "A" rocfft_precision_single world0).

(** *** The cache *)

Lemma cache_emit (e : event) (w : world) : cache (emit e w) = cache w.
Proof. reflexivity. Qed.

Lemma lookup_store_ne (k k' : key) (b : binary) (w : world) :
  k ≠ k' -> lookup k' (cache (store k b w)) = lookup k' (cache w).
Proof.
  intros Hne. unfold store, lookup.
  destruct (cache w !! k) as [b'|] eqn:Hk; simpl.
  - now destruct (decide (b' = b)).
  - now rewrite lookup_insert_ne.
Qed.

Lemma lookup_store_eq (k : key) (b : binary) (w : world) :
  lookup k (cache (store k b w)) =
  match lookup k (cache w) with Some b' => Some b' | None => Some b end.
Proof.
  unfold store, lookup.
  destruct (cache w !! k) as [b'|] eqn:Hk; simpl.
  - destruct (decide (b' = b)); simpl; now rewrite Hk.
  - now rewrite lookup_insert_eq.
Qed.

Lemma lookup_store_new (k : key) (b : binary) (w : world) :
  lookup k (cache w) = None -> store k b w = World (<[k := b]> (cache w)) (trace w).
Proof. intros Hk. unfold store. now rewrite Hk. Qed.

(** What a lookup finds after further stores was in the cache before or is
    one of the stores, under the very key of the lookup. *)
Lemma lookup_fold_store (h : list (key * binary)) (w : world) (k : key) (b : binary) :
  lookup k (cache (fold_left (fun w kb => store (fst kb) (snd kb) w) h w)) = Some b ->
  lookup k (cache w) = Some b \/ In (k, b) h.
Proof.
  revert w; induction h as [|[k' b'] h IH]; intros w Hl; simpl in *.
  - now left.
  - destruct (IH _ Hl) as [Hw | Hin]; [| now right; right].
    destruct (decide (k' = k)) as [->|Hne].
    + rewrite lookup_store_eq in Hw.
      destruct (lookup k (cache w)) as [b0|] eqn:Hk.
      * now left.
      * right; left. congruence.
    + rewrite lookup_store_ne in Hw by assumption. now left.
Qed.

(** *** The pipeline *)

Lemma cached_compile_hit (compiler : compiler_t) (name arch : string)
    (gen : kernel_src_gen_t) (sum : string) (w : world) (b : binary) :
  lookup (name, arch, sum) (cache w) = Some b ->
  cached_compile compiler name arch gen sum w = (inl b, w).
Proof. intros Hl. unfold cached_compile. now rewrite Hl. Qed.

Lemma cached_compile_miss (compiler : compiler_t) (name arch : string)
    (gen : kernel_src_gen_t) (sum : string) (w : world) :
  lookup (name, arch, sum) (cache w) = None ->
  cached_compile compiler name arch gen sum w =
  let w2 := World (cache w) (trace w ++ [EvGenerate name; EvCompile (gen name) arch]) in
  match compiler (gen name) arch with
  | inl b => (inl b, World (<[(name, arch, sum) := b]> (cache w)) (trace w2))
  | inr d => (inr (CompileFailure d (gen name)), w2)
  end.
Proof.
  intros Hl. unfold cached_compile. rewrite Hl. cbv zeta.
  unfold emit; simpl. rewrite <- app_assoc; simpl.
  destruct (compiler (gen name) arch); [| reflexivity].
  now rewrite lookup_store_new by exact Hl.
Qed.

Lemma cached_compile_other_key (compiler : compiler_t) (name arch : string)
    (gen : kernel_src_gen_t) (sum : string) (w : world) (k' : key) :
  (name, arch, sum) ≠ k' ->
  lookup k' (cache (snd (cached_compile compiler name arch gen sum w)))
  = lookup k' (cache w).
Proof.
  intros Hne.
  destruct (lookup (name, arch, sum) (cache w)) as [b|] eqn:Hl.
  - now rewrite (cached_compile_hit _ _ _ _ _ _ _ Hl).
  - rewrite (cached_compile_miss _ _ _ _ _ _ Hl); cbv zeta.
    destruct (compiler (gen name) arch); simpl; [| reflexivity].
    unfold lookup. now rewrite lookup_insert_ne.
Qed.

(** *** [RTCKernelChirp::generate] *)

Lemma generate_world cn cr (sum : string) (compiler : compiler_t)
    (arch : string) (p : rocfft_precision) (w : world) :
  snd (generate cn cr sum compiler arch p w)
  = snd (cached_compile compiler (cn p) arch (fun name => cr name p) sum w).
Proof.
  unfold generate.
  now destruct (cached_compile _ _ _ _ _ _) as [[c|e] w'].
Qed.

Lemma generate_kernel cn cr (sum : string) (compiler : compiler_t)
    (arch : string) (p : rocfft_precision) (w : world) (kr : RTCKernelChirp) :
  fst (generate cn cr sum compiler arch p w) = inl kr ->
  kernel_name kr = cn p /\
  fst (cached_compile compiler (cn p) arch (fun name => cr name p) sum w) = inl (code kr).
Proof.
  unfold generate.
  destruct (cached_compile _ _ _ _ _ _) as [[c|e] w']; simpl; intros H.
  - now inversion H.
  - discriminate.
Qed.

Lemma generate_miss_trace cn cr (sum : string) (compiler : compiler_t)
    (arch : string) (p : rocfft_precision) (w : world) :
  lookup (cn p, arch, sum) (cache w) = None ->
  trace (snd (generate cn cr sum compiler arch p w))
  = trace w ++ [EvGenerate (cn p); EvCompile (cr (cn p) p) arch].
Proof.
  intros Hl. rewrite generate_world, (cached_compile_miss _ _ _ _ _ _ Hl).
  cbv zeta. now destruct (compiler _ arch).
Qed.

(** *** The scenarios of the specification, run *)

(** Scenario 1: a first request misses, generates, compiles and stores. *)
Example scenario_miss :
  toy_generate "v1" "A" rocfft_precision_single world0
  = (inl (MkRTCKernelChirp "chirp_sp" [Byte.x0a] dim3_default dim3_default),
     World {[ ("chirp_sp", "A", "v1") := [Byte.x0a] ]}
           [EvGenerate "chirp_sp";
            EvCompile "__global__ void chirp_sp();" "A"]).
Proof. vm_compute. reflexivity. Qed.

(** Scenario 2: the same request again hits; nothing is invoked. *)
Example scenario_hit :
  toy_generate "v1" "A" rocfft_precision_single world1
  = (inl (MkRTCKernelChirp "chirp_sp" [Byte.x0a] dim3_default dim3_default), world1).
Proof. vm_compute. reflexivity. Qed.

(** Scenario 3: another architecture is another key. *)
Example scenario_other_arch :
  trace (snd (toy_generate "v1" "B" rocfft_precision_single world1))
  = trace world1 ++ [EvGenerate "chirp_sp";
                     EvCompile "__global__ void chirp_sp();" "B"].
Proof. vm_compute. reflexivity. Qed.

(** Scenario 4: another generator signature is another key. *)
Example scenario_other_signature :
  trace (snd (toy_generate "v2" "A" rocfft_precision_single world1))
  = trace world1 ++ [EvGenerate "chirp_sp";
                     EvCompile "__global__ void chirp_sp();" "A"].
Proof. vm_compute. reflexivity. Qed.

(** A rejected compilation stores nothing. *)
Example scenario_compile_failure :
  cached_compile toy_compiler "k" "A" (fun _ => "") "v1" world0
  = (inr (CompileFailure "error: empty translation unit" ""),
     World ∅ [EvGenerate "k"; EvCompile "" "A"]).
Proof. vm_compute. reflexivity. Qed.

(** Other content under a key that has an entry: the entry stays. *)
Example scenario_divergent_store :
  store ("chirp_sp", "A", "v1") [Byte.xff] world1
  = World (cache world1) (trace world1 ++ [EvStoreRejected ("chirp_sp", "A", "v1")]).
Proof. vm_compute. reflexivity. Qed.

(** *** The properties of the specification *)

(** C3: after any history of stores a lookup either misses or returns a
    binary that was stored under exactly the key of the lookup; an entry
    stored under one key is not seen under another one; and a request of
    [generate] under another generator signature, same kernel and
    architecture, does not see the entry made under the first signature: it
    generates and compiles again. *)
Theorem lookup_exact_key_or_miss :
  (forall (h : list (key * binary)) (k : key),
     lookup k (cache (replay h)) = None \/
     exists b, lookup k (cache (replay h)) = Some b /\ In (k, b) h) /\
  (forall (w : world) (k k' : key) (b : binary),
     k ≠ k' -> lookup k' (cache (store k b w)) = lookup k' (cache w)) /\
  (forall cn cr (compiler : compiler_t) (arch : string) (p : rocfft_precision)
          (sig sig' : string) (w : world),
     sig ≠ sig' ->
     lookup (cn p, arch, sig') (cache w) = None ->
     let w1 := snd (generate cn cr sig compiler arch p w) in
     lookup (cn p, arch, sig') (cache w1) = None /\
     trace (snd (generate cn cr sig' compiler arch p w1))
     = trace w1 ++ [EvGenerate (cn p); EvCompile (cr (cn p) p) arch]).
Proof.
  split; [| split].
  - intros h k. destruct (lookup k (cache (replay h))) as [b|] eqn:Hl.
    + right. exists b. split; [reflexivity |].
      destruct (lookup_fold_store h _ k b Hl) as [H0 | Hin]; [| exact Hin].
      unfold lookup in H0; simpl in H0. now rewrite lookup_empty in H0.
    + now left.
  - intros w k k' b Hne. now apply lookup_store_ne.
  - intros cn cr compiler arch p sig sig' w Hne Hmiss w1.
    assert (Hmiss1 : lookup (cn p, arch, sig') (cache w1) = None).
    { subst w1. rewrite generate_world, cached_compile_other_key; [exact Hmiss |].
      intros Heq. apply Hne. now inversion Heq. }
    split; [exact Hmiss1 |].
    now apply generate_miss_trace.
Qed.

(** C7: when the compiler rejects the source of a key that is not cached,
    the pipeline returns a compilation error with the compiler's
    diagnostics, the cache is as before and has no entry for the key, and
    the next request for the key runs generator and compiler again. *)
Theorem compile_failure_is_not_cached (compiler : compiler_t)
    (name arch sum : string) (gen : kernel_src_gen_t) (w : world)
    (diagnostics : string) :
  lookup (name, arch, sum) (cache w) = None ->
  compiler (gen name) arch = inr diagnostics ->
  let r := cached_compile compiler name arch gen sum w in
  fst r = inr (CompileFailure diagnostics (gen name)) /\
  cache (snd r) = cache w /\
  lookup (name, arch, sum) (cache (snd r)) = None /\
  (forall (compiler' : compiler_t) (gen' : kernel_src_gen_t),
     let r' := cached_compile compiler' name arch gen' sum (snd r) in
     trace (snd r')
     = trace (snd r) ++ [EvGenerate name; EvCompile (gen' name) arch] /\
     fst r' = match compiler' (gen' name) arch with
              | inl b => inl b
              | inr d => inr (CompileFailure d (gen' name))
              end).
Proof.
  intros Hl Hfail r.
  assert (Hr : r = (inr (CompileFailure diagnostics (gen name)),
                    World (cache w)
                          (trace w ++ [EvGenerate name; EvCompile (gen name) arch]))).
  { subst r. rewrite (cached_compile_miss _ _ _ _ _ _ Hl); cbv zeta.
    now rewrite Hfail. }
  rewrite Hr; cbn [fst snd cache trace].
  split; [reflexivity | split; [reflexivity | split; [exact Hl |]]].
  intros compiler' gen'.
  rewrite cached_compile_miss by exact Hl. cbv zeta.
  now destruct (compiler' (gen' name) arch).
Qed.

(** C8: storing the same binary under the same key twice leaves the cache
    as storing it once does (and the whole world, log included, when the
    key was free or held that binary); storing other content under a key
    that holds a binary is logged as rejected and the entry stays. *)
Theorem store_idempotent (k : key) (b b' : binary) (w : world) :
  cache (store k b (store k b w)) = cache (store k b w) /\
  (lookup k (cache w) = None \/ lookup k (cache w) = Some b ->
   store k b (store k b w) = store k b w) /\
  (lookup k (cache w) = Some b ->
   b' ≠ b ->
   store k b' w = emit (EvStoreRejected k) w /\
   lookup k (cache (store k b' w)) = Some b).
Proof.
  split; [| split].
  - unfold store at 1. rewrite lookup_store_eq.
    destruct (lookup k (cache w)) as [b0|] eqn:Hk.
    + now destruct (decide (b0 = b)).
    + now rewrite decide_True.
  - intros Hk. unfold store at 1. rewrite lookup_store_eq.
    destruct Hk as [Hk | Hk]; rewrite Hk; now rewrite decide_True.
  - intros Hk Hne. unfold store. rewrite Hk.
    rewrite decide_False by congruence. split; [reflexivity |].
    now rewrite cache_emit.
Qed.

(** *** The statements at the toy compiler *)

Lemma compile_failure_is_not_cached_witness :
  lookup ("k", "A", "v1") (cache world0) = None /\
  toy_compiler "" "A" = inr "error: empty translation unit" /\
  fst (cached_compile toy_compiler "k" "A" (fun _ => "") "v1" world0)
  = inr (CompileFailure "error: empty translation unit" "").
Proof.
  split; [vm_compute; reflexivity |].
  split; [vm_compute; reflexivity |].
  apply (compile_failure_is_not_cached toy_compiler "k" "A" "v1" (fun _ => "")
           world0 "error: empty translation unit");
    vm_compute; reflexivity.
Defined.

(** *** The precision and the cache key *)

Lemma cached_compile_success_cached (compiler : compiler_t) (name arch : string)
    (gen : kernel_src_gen_t) (sum : string) (w : world) (b : binary) :
  fst (cached_compile compiler name arch gen sum w) = inl b ->
  lookup (name, arch, sum) (cache (snd (cached_compile compiler name arch gen sum w)))
  = Some b.
Proof.
  destruct (lookup (name, arch, sum) (cache w)) as [b0|] eqn:Hl.
  - rewrite (cached_compile_hit _ _ _ _ _ _ _ Hl); simpl. now intros [= <-].
  - rewrite (cached_compile_miss _ _ _ _ _ _ Hl); cbv zeta.
    destruct (compiler (gen name) arch) as [b0|d]; simpl; [| discriminate].
    intros [= <-]. unfold lookup. now rewrite lookup_insert_eq.
Qed.

(** A clash of kernel names: both precisions are called ["chirp"]. *)
Definition clash_name (p : rocfft_precision) : string := "chirp".

(** A source text that depends on the precision. *)
Definition precise_src (name : string) (p : rocfft_precision) : string :=
  match p with
  | rocfft_precision_single => "float " +:+ name
  | rocfft_precision_double => "double " +:+ name
  | rocfft_precision_half => "half " +:+ name
  end.

(** With clashing names the request for double precision is served the
    binary compiled from the single-precision source. *)
Example clash_serves_other_precision :
  let w1 := snd (generate clash_name precise_src "v1" toy_compiler "A"
                   rocfft_precision_single world0) in
  trace w1 = [EvGenerate "chirp"; EvCompile "float chirp" "A"] /\
  generate clash_name precise_src "v1" toy_compiler "A" rocfft_precision_double w1
  = (inl (MkRTCKernelChirp "chirp" [Byte.x0a] dim3_default dim3_default), w1).
Proof. vm_compute. split; reflexivity. Qed.

(** The precision enters the cache key of [generate] through the kernel
    name only.  After a successful request for precision [p], a request for
    [p'] on the same architecture with the same kernel name is served the
    code of [p] and invokes nothing; with another kernel name, and no entry
    of its own, it generates and compiles the source of [p']. *)
Theorem generate_key_is_kernel_name cn cr (sum : string) (compiler : compiler_t)
    (arch : string) (p p' : rocfft_precision) (w : world) (kr : RTCKernelChirp) :
  fst (generate cn cr sum compiler arch p w) = inl kr ->
  let w1 := snd (generate cn cr sum compiler arch p w) in
  (cn p' = cn p ->
   generate cn cr sum compiler arch p' w1
   = (inl (MkRTCKernelChirp (cn p') (code kr) dim3_default dim3_default), w1)) /\
  (cn p' <> cn p ->
   lookup (cn p', arch, sum) (cache w) = None ->
   trace (snd (generate cn cr sum compiler arch p' w1))
   = trace w1 ++ [EvGenerate (cn p'); EvCompile (cr (cn p') p') arch]).
Proof.
  intros Hok w1.
  destruct (generate_kernel _ _ _ _ _ _ _ _ Hok) as [_ Hcode].
  apply cached_compile_success_cached in Hcode.
  rewrite <- generate_world in Hcode. fold w1 in Hcode.
  split.
  - intros Hn. unfold generate. rewrite Hn.
    now rewrite (cached_compile_hit _ _ _ _ _ _ _ Hcode).
  - intros Hn Hmiss. apply generate_miss_trace.
    subst w1. rewrite generate_world, cached_compile_other_key; [exact Hmiss |].
    intros [= Heq]. now apply Hn.
Qed.

Lemma generate_key_is_kernel_name_witness :
  (fst (generate clash_name precise_src "v1" toy_compiler "A"
          rocfft_precision_single world0)
   = inl (MkRTCKernelChirp "chirp" [Byte.x0a] dim3_default dim3_default) /\
   clash_name rocfft_precision_double = clash_name rocfft_precision_single /\
   let w1 := snd (generate clash_name precise_src "v1" toy_compiler "A"
                    rocfft_precision_single world0) in
   generate clash_name precise_src "v1" toy_compiler "A" rocfft_precision_double w1
   = (inl (MkRTCKernelChirp "chirp" [Byte.x0a] dim3_default dim3_default), w1)) /\
  (fst (toy_generate "v1" "A" rocfft_precision_single world0)
   = inl (MkRTCKernelChirp "chirp_sp" [Byte.x0a] dim3_default dim3_default) /\
   toy_name rocfft_precision_double <> toy_name rocfft_precision_single /\
   lookup (toy_name rocfft_precision_double, "A", "v1") (cache world0) = None /\
   trace (snd (toy_generate "v1" "A" rocfft_precision_double world1))
   = trace world1 ++ [EvGenerate "chirp_dp";
                      EvCompile "__global__ void chirp_dp();" "A"]).
Proof.
  split.
  - split; [vm_compute; reflexivity | split; [reflexivity |]].
    apply (generate_key_is_kernel_name clash_name precise_src "v1" toy_compiler "A"
             rocfft_precision_single rocfft_precision_double world0
             (MkRTCKernelChirp "chirp" [Byte.x0a] dim3_default dim3_default));
      [vm_compute; reflexivity | reflexivity].
  - split; [vm_compute; reflexivity | split; [discriminate | split; [vm_compute; reflexivity |]]].
    apply (generate_key_is_kernel_name toy_name toy_src "v1" toy_compiler "A"
             rocfft_precision_single rocfft_precision_double world0
             (MkRTCKernelChirp "chirp_sp" [Byte.x0a] dim3_default dim3_default));
      [vm_compute; reflexivity | discriminate | vm_compute; reflexivity].
Defined.

(** *** Generation and compilation as effects *)

(** A step that may read and change the world. *)
Definition action (A : Type) : Type := world -> A * world.

(** [kernel_src_gen_t] as the callable it is: calling it with the kernel
    name runs generation logic, which acts on the world. *)
Definition generator_fn : Type := string -> action string.

(** The device compiler as a callable that acts when it is called. *)
Definition compiler_fn : Type := string -> string -> action (binary + string).

(** Modelled from the spec: the pipeline of section 4.4 ([cached_compile]
    of [rtc_cache.h]) with the generator and the compiler as callables:
    what a call does to the world happens where the pipeline makes the
    call, and nowhere else. *)
Definition cached_compile_fx (compiler : compiler_fn)
    (kernel_name gpu_arch : string) (generate_src : generator_fn)
    (generator_sum : string) : action (binary + error) :=
  fun w =>
    let k := (kernel_name, gpu_arch, generator_sum) in
    match lookup k (cache w) with
    | Some code => (inl code, w)
    | None =>
        let '(src, w) := generate_src kernel_name w in
        let '(r, w) := compiler src gpu_arch w in
        match r with
        | inl code => (inl code, store k code w)
        | inr diagnostics => (inr (CompileFailure diagnostics src), w)
        end
    end.

(** A generator and a compiler that compute as the functions [g] and [c]
    do and log each call. *)
Definition logged_generator (g : kernel_src_gen_t) : generator_fn :=
  fun name w => (g name, emit (EvGenerate name) w).

Definition logged_compiler (c : compiler_t) : compiler_fn :=
  fun src arch w => (c src arch, emit (EvCompile src arch) w).

Section GenerateFx.

(** [chirp_rtc_kernel_name] is called on every request (line 27) and only
    computes the name; [chirp_rtc] is the generation logic, a callable
    that acts on the world when it is called. *)
Variable chirp_rtc_kernel_name : rocfft_precision -> string.
Variable chirp_rtc : string -> rocfft_precision -> action string.
Variable generator_sum : string.

Variable compiler : compiler_fn.

(** [RTCKernelChirp::generate]: [chirp_rtc] is called nowhere but in the
    body of the lambda that is handed to [cached_compile]. *)
Definition generate_fx (gpu_arch : string) (precision : rocfft_precision)
    : action (RTCKernelChirp + error) :=
  fun w =>
    let kernel_name := chirp_rtc_kernel_name precision in
    let generator : generator_fn :=
      fun kernel_name => chirp_rtc kernel_name precision in
    match cached_compile_fx compiler kernel_name gpu_arch generator generator_sum w with
    | (inl code, w') =>
        (inl (MkRTCKernelChirp kernel_name code dim3_default dim3_default), w')
    | (inr e, w') => (inr e, w')
    end.

(** Not the source, for comparison: a wrapper that calls [chirp_rtc]
    itself, before it asks the pipeline, and hands the finished text over. *)
Definition generate_eagerly (gpu_arch : string) (precision : rocfft_precision)
    : action (RTCKernelChirp + error) :=
  fun w =>
    let kernel_name := chirp_rtc_kernel_name precision in
    let '(src, w) := chirp_rtc kernel_name precision w in
    let generator : generator_fn := fun _ w => (src, w) in
    match cached_compile_fx compiler kernel_name gpu_arch generator generator_sum w with
    | (inl code, w') =>
        (inl (MkRTCKernelChirp kernel_name code dim3_default dim3_default), w')
    | (inr e, w') => (inr e, w')
    end.

End GenerateFx.

(** The chirp generator and the compiler of the scenarios, logging. *)
Definition toy_chirp_rtc : string -> rocfft_precision -> action string :=
  fun name p => logged_generator (fun name => toy_src name p) name.

Definition toy_compiler_fx : compiler_fn := logged_compiler toy_compiler.

(** With a generator and a compiler that only log their calls the pipeline
    is the one above. *)
Lemma cached_compile_fx_logged (c : compiler_t) (name arch : string)
    (g : kernel_src_gen_t) (sum : string) (w : world) :
  cached_compile_fx (logged_compiler c) name arch (logged_generator g) sum w
  = cached_compile c name arch g sum w.
Proof.
  unfold cached_compile_fx, cached_compile, logged_compiler, logged_generator.
  destruct (lookup (name, arch, sum) (cache w)); [reflexivity |].
  cbv zeta. now destruct (c (g name) arch).
Qed.

Lemma generate_fx_logged cn cr (sum : string) (c : compiler_t)
    (arch : string) (p : rocfft_precision) (w : world) :
  generate_fx cn (fun name p => logged_generator (fun name => cr name p) name)
    sum (logged_compiler c) arch p w
  = generate cn cr sum c arch p w.
Proof.
  unfold generate_fx, generate.
  change (fun kernel_name : string =>
            logged_generator (fun name : string => cr name p) kernel_name)
    with (logged_generator (fun name : string => cr name p)).
  now rewrite cached_compile_fx_logged.
Qed.

Lemma cached_compile_fx_hit (compiler : compiler_fn) (name arch : string)
    (gen : generator_fn) (sum : string) (w : world) (b : binary) :
  lookup (name, arch, sum) (cache w) = Some b ->
  cached_compile_fx compiler name arch gen sum w = (inl b, w).
Proof. intros Hl. unfold cached_compile_fx. now rewrite Hl. Qed.

(** C5: when the lookup hits, the pipeline returns the cached binary and
    the world is as it was, whatever calling the generator or the compiler
    would do to it: neither is called.  [generate] hands [chirp_rtc] over
    inside a function, so on a hit it returns the cached code and leaves
    the world as it was for every [chirp_rtc]; a wrapper that calls
    [chirp_rtc] itself does not: on the same hit the call shows in the
    world. *)
Theorem cache_hit_calls_nothing :
  (forall (compiler : compiler_fn) (name arch sum : string) (gen : generator_fn)
          (w : world) (b : binary),
     lookup (name, arch, sum) (cache w) = Some b ->
     cached_compile_fx compiler name arch gen sum w = (inl b, w) /\
     (forall cn (chirp_rtc : string -> rocfft_precision -> action string)
             (p : rocfft_precision),
        cn p = name ->
        generate_fx cn chirp_rtc sum compiler arch p w
        = (inl (MkRTCKernelChirp name b dim3_default dim3_default), w))) /\
  (lookup ("chirp_sp", "A", "v1") (cache world1) = Some [Byte.x0a] /\
   generate_fx toy_name toy_chirp_rtc "v1" toy_compiler_fx "A"
     rocfft_precision_single world1
   = (inl (MkRTCKernelChirp "chirp_sp" [Byte.x0a] dim3_default dim3_default), world1) /\
   generate_eagerly toy_name toy_chirp_rtc "v1" toy_compiler_fx "A"
     rocfft_precision_single world1
   = (inl (MkRTCKernelChirp "chirp_sp" [Byte.x0a] dim3_default dim3_default),
      emit (EvGenerate "chirp_sp") world1)).
Proof.
  split.
  - intros compiler name arch sum gen w b Hl. split.
    + now apply cached_compile_fx_hit.
    + intros cn chirp_rtc p Hn. unfold generate_fx. rewrite Hn.
      now rewrite (cached_compile_fx_hit _ _ _ _ _ _ _ Hl).
  - repeat split; vm_compute; reflexivity.
Qed.

Lemma cache_hit_calls_nothing_witness :
  lookup ("chirp_sp", "A", "v1") (cache world1) = Some [Byte.x0a] /\
  cached_compile_fx toy_compiler_fx "chirp_sp" "A"
    (fun name => toy_chirp_rtc name rocfft_precision_single) "v1" world1
  = (inl [Byte.x0a], world1).
Proof.
  split; [vm_compute; reflexivity |].
  apply (proj1 cache_hit_calls_nothing toy_compiler_fx "chirp_sp" "A" "v1"
           (fun name => toy_chirp_rtc name rocfft_precision_single)
           world1 [Byte.x0a]).
  vm_compute; reflexivity.
Defined.

End Rtc.

(* ===================================================================== *)
(** ** bench.cpp                                                          *)
(* ===================================================================== *)

Module Bench.

(** The enumerations of [fft_params.h] that [main] names. *)
Inductive fft_precision : Type :=
  | fft_precision_half
  | fft_precision_single
  | fft_precision_double.

Inductive fft_result_placement : Type :=
  | fft_placement_inplace
  | fft_placement_notinplace.

(** The command line after [po::store] and [po::notify] have accepted it:
    for the options that [main] itself looks at before [rocfft_setup],
    whether each was given and with which value.  The other options of
    [opdesc] ([inputGen], [transformType], [batchSize], [itype], [otype],
    [isize], [osize], [scalefactor]) go to members of [params] that [main]
    does not touch before.  [main] is modelled from that point on; a
    command line that the parser refuses ends the program in an exception
    before. *)
Record options : Type := Options {
  opt_help : bool;
  opt_version : bool;
  opt_device : option Z;
  opt_verbose : option Z;
  opt_ntrial : option Z;
  opt_notInPlace : bool;
  opt_double : bool;
  opt_precision : option fft_precision;
  opt_length : option (list N);
  opt_istride : option (list N);
  opt_ostride : option (list N);
  opt_idist : option N;
  opt_odist : option N;
  opt_ioffset : option (list N);
  opt_ooffset : option (list N);
  opt_token : option string
}.

(** The options [main] asks [vm.count] about. *)
Inductive opt_name : Type :=
  | o_help | o_version | o_ntrial | o_notInPlace | o_double
  | o_length | o_istride | o_ostride | o_ioffset | o_ooffset.

Definition given {A : Type} (v : option A) : nat :=
  match v with Some _ => 1 | None => 0 end.

Definition flag (b : bool) : nat := if b then 1 else 0.

(** [vm.count(name)]: 1 when the option is in the map.  [ntrial] is
    declared with [default_value(1)], so it always is. *)
Definition count (vm : options) (name : opt_name) : nat :=
  match name with
  | o_help => flag (opt_help vm)
  | o_version => flag (opt_version vm)
  | o_ntrial => 1
  | o_notInPlace => flag (opt_notInPlace vm)
  | o_double => flag (opt_double vm)
  | o_length => given (opt_length vm)
  | o_istride => given (opt_istride vm)
  | o_ostride => given (opt_ostride vm)
  | o_ioffset => given (opt_ioffset vm)
  | o_ooffset => given (opt_ooffset vm)
  end.

(** A condition of C++: a count is true when it is not zero. *)
Definition truthy (n : nat) : bool := negb (Nat.eqb n 0).

(** The members of [rocfft_params] that [main] reads or writes before it
    calls [rocfft_setup]. *)
Record rocfft_params : Type := Params {
  precision : fft_precision;
  placement : fft_result_placement;
  length : list N;
  istride : list N;
  ostride : list N;
  idist : N;
  odist : N;
  ioffset : list N;
  ooffset : list N
}.

(** What is written to [std::cout]. *)
Inductive out : Type :=
  | Str (s : string)
  | Int (z : Z)
  | Size (n : N)
  | Opdesc            (* [<< opdesc]: the help text *)
  | VersionString     (* the text of [rocfft_get_version_string] *)
  | Nl                (* the character ["\n"] *)
  | Endl              (* [std::endl] *)
  | Flush.            (* [std::flush] *)

Definition EXIT_SUCCESS : Z := 0.

(** A piece of [main]: it appends to the output and either has left [main]
    with an exit code or goes on with a value. *)
Definition M (A : Type) : Type := list out -> (Z + A) * list out.

#[global] Instance M_ret : MRet M := fun A a o => (inr a, o).

#[global] Instance M_bind : MBind M :=
  fun A B f m o =>
    match m o with
    | (inl code, o') => (inl code, o')
    | (inr a, o') => f a o'
    end.

(** [return code;] *)
Definition return_ {A : Type} (code : Z) : M A := fun o => (inl code, o).

(** [std::cout << ...] *)
Definition cout (l : list out) : M unit := fun o => (inr tt, o ++ l).

Definition when (c : bool) (m : M unit) : M unit := if c then m else mret tt.

(** [for(auto& i : v) std::cout << " " << i;] *)
Definition cout_each (v : list N) : M unit :=
  cout (flat_map (fun i => [Str " "; Size i]) v).

Definition from_option {A : Type} (d : A) (v : option A) : A :=
  match v with Some a => a | None => d end.

(** [po::notify]: the values of the options go to the variables bound to
    them; an option that is absent leaves the default, that of
    [default_value] or that of the member. *)
Definition notify (vm : options) : rocfft_params :=
  Params (from_option fft_precision_single (opt_precision vm))
         fft_placement_inplace
         (from_option [] (opt_length vm))
         (from_option [] (opt_istride vm))
         (from_option [] (opt_ostride vm))
         (from_option 0%N (opt_idist vm))
         (from_option 0%N (opt_odist vm))
         (from_option [] (opt_ioffset vm))
         (from_option [] (opt_ooffset vm)).

(** What [main] holds when it reaches [rocfft_setup()]. *)
Record at_setup : Type := AtSetup {
  deviceId : Z;
  verbose : Z;
  ntrial : Z;
  params : rocfft_params
}.

Section Main.

(** [params.from_token(token)], of [fft_params.h]: the parameters read
    from the token, or [None] when it throws. *)
Variable from_token : string -> rocfft_params -> option rocfft_params.

(** [main], lines 34 to 212: up to the point where the library is set up. *)
Definition main (vm : options) : M at_setup :=
  let verbose := from_option 0%Z (opt_verbose vm) in
  let deviceId := from_option 0%Z (opt_device vm) in
  let ntrial := from_option 1%Z (opt_ntrial vm) in
  let token := from_option "" (opt_token vm) in
  let params := notify vm in
  when (truthy (count vm o_help))
    (cout [Opdesc; Endl] ;; return_ EXIT_SUCCESS) ;;
  when (truthy (count vm o_version))
    (cout [Str "version "; VersionString; Endl] ;; return_ EXIT_SUCCESS) ;;
  when (truthy (count vm o_ntrial))
    (cout [Str "Running profile with "; Int ntrial; Str " samples"; Nl]) ;;
  params ←
    (if negb (String.eqb token "") then
       cout [Str "Reading fft params from token:"; Nl; Str token; Endl] ;;
       match from_token token params with
       | Some params => mret params
       | None => cout [Str "Unable to parse token."; Endl] ;; return_ 1%Z
       end
     else
       when (negb (truthy (count vm o_length)))
         (cout [Str "Please specify transform length!"; Endl] ;;
          cout [Opdesc; Endl] ;;
          return_ EXIT_SUCCESS) ;;
       let params :=
         Params (if truthy (count vm o_double) then fft_precision_double
                 else precision params)
                (if truthy (count vm o_notInPlace) then fft_placement_notinplace
                 else fft_placement_inplace)
                (length params) (istride params) (ostride params)
                (idist params) (odist params)
                (ioffset params) (ooffset params) in
       (if truthy (count vm o_notInPlace)
        then cout [Str "out-of-place"; Nl]
        else cout [Str "in-place"; Nl]) ;;
       when (truthy (count vm o_length))
         (cout [Str "length:"] ;; cout_each (length params) ;; cout [Nl]) ;;
       when (truthy (count vm o_istride))
         (cout [Str "istride:"] ;; cout_each (istride params) ;; cout [Nl]) ;;
       when (truthy (count vm o_ostride))
         (cout [Str "ostride:"] ;; cout_each (ostride params) ;; cout [Nl]) ;;
       when (N.ltb 0 (idist params))
         (cout [Str "idist: "; Size (idist params); Nl]) ;;
       when (N.ltb 0 (odist params))
         (cout [Str "odist: "; Size (odist params); Nl]) ;;
       when (truthy (count vm o_ioffset))
         (cout [Str "ioffset:"] ;; cout_each (ioffset params) ;; cout [Nl]) ;;
       when (truthy (count vm o_ooffset))
         (cout [Str "ooffset:"] ;; cout_each (ooffset params) ;; cout [Nl]) ;;
       mret params);
  cout [Flush] ;;
  mret (AtSetup deviceId verbose ntrial params).

End Main.

(** *** Runs of [main] *)

(** No option at all. *)
Definition no_options : options :=
  Options false false None None None false false None
          None None None None None None None None.

(** [--help] alone. *)
Definition help_only : options :=
  Options true false None None None false false None
          None None None None None None None None.

(** [--version] alone. *)
Definition version_only : options :=
  Options false true None None None false false None
          None None None None None None None None.

(** [--length 8 4 -o --double -N 3]. *)
Definition with_length : options :=
  Options false false None None (Some 3%Z) true true None
          (Some [8%N; 4%N]) None None None None None None None.

(** A [from_token] that accepts no token. *)
Definition no_token_parses : string -> rocfft_params -> option rocfft_params :=
  fun _ _ => None.

Example main_no_options :
  main no_token_parses no_options []
  = (inl 0%Z,
     [Str "Running profile with "; Int 1; Str " samples"; Nl;
      Str "Please specify transform length!"; Endl; Opdesc; Endl]).
Proof. reflexivity. Qed.

Example main_help_only :
  main no_token_parses help_only [] = (inl 0%Z, [Opdesc; Endl]).
Proof. reflexivity. Qed.

Example main_version_only :
  main no_token_parses version_only []
  = (inl 0%Z, [Str "version "; VersionString; Endl]).
Proof. reflexivity. Qed.

Example main_with_length :
  main no_token_parses with_length []
  = (inr (AtSetup 0 0 3
            (Params fft_precision_double fft_placement_notinplace
                    [8%N; 4%N] [] [] 0 0 [] [])),
     [Str "Running profile with "; Int 3; Str " samples"; Nl;
      Str "out-of-place"; Nl;
      Str "length:"; Str " "; Size 8; Str " "; Size 4; Nl;
      Flush]).
Proof. reflexivity. Qed.

(** *** The run without a transform length *)

(** The message about the missing length is somewhere in the output. *)
Definition asks_for_length (o : list out) : Prop :=
  In (Str "Please specify transform length!") o.

(** C10, as the code has it: when neither [--help] nor [--version] is
    given, no [--token] string is supplied and [--length] is absent, [main]
    prints the line about the number of samples, then the message
    ["Please specify transform length!"] and the help text, and returns
    [EXIT_SUCCESS] before it reaches [rocfft_setup]. *)
Theorem main_without_length from_token (vm : options) :
  opt_help vm = false ->
  opt_version vm = false ->
  opt_token vm = None ->
  opt_length vm = None ->
  main from_token vm []
  = (inl EXIT_SUCCESS,
     [Str "Running profile with "; Int (from_option 1%Z (opt_ntrial vm));
      Str " samples"; Nl;
      Str "Please specify transform length!"; Endl; Opdesc; Endl]).
Proof.
  intros Hh Hv Ht Hl. unfold main, count.
  rewrite Hh, Hv, Ht, Hl. reflexivity.
Qed.

Lemma main_without_length_witness :
  main no_token_parses no_options []
  = (inl EXIT_SUCCESS,
     [Str "Running profile with "; Int 1; Str " samples"; Nl;
      Str "Please specify transform length!"; Endl; Opdesc; Endl]).
Proof.
  apply (main_without_length no_token_parses no_options); reflexivity.
Defined.

(** With [--help], no [--token] and no [--length], [main] prints the help
    text alone: the message about the length is not printed. *)
Lemma main_help_without_length :
  opt_token help_only = None /\
  opt_length help_only = None /\
  main no_token_parses help_only [] = (inl EXIT_SUCCESS, [Opdesc; Endl]) /\
  ~ asks_for_length (snd (main no_token_parses help_only [])).
Proof.
  repeat split.
  unfold asks_for_length; simpl.
  intros [H | [H | []]]; discriminate.
Qed.

(** *** Which way [main] goes *)

(** The token string [main] tests: that of [--token], empty without it. *)
Definition token_of (vm : options) : string := from_option "" (opt_token vm).

(** The parameters [main] has set up from the command line when it goes on
    without a token: [--double] decides the precision over [--precision],
    [--notInPlace] the placement. *)
Definition params_of_options (vm : options) : rocfft_params :=
  Params (if opt_double vm then fft_precision_double
          else from_option fft_precision_single (opt_precision vm))
         (if opt_notInPlace vm then fft_placement_notinplace
          else fft_placement_inplace)
         (from_option [] (opt_length vm))
         (from_option [] (opt_istride vm))
         (from_option [] (opt_ostride vm))
         (from_option 0%N (opt_idist vm))
         (from_option 0%N (opt_odist vm))
         (from_option [] (opt_ioffset vm))
         (from_option [] (opt_ooffset vm)).

(** The state at [rocfft_setup] with parameters [p]. *)
Definition setup_with (vm : options) (p : rocfft_params) : at_setup :=
  AtSetup (from_option 0%Z (opt_device vm)) (from_option 0%Z (opt_verbose vm))
          (from_option 1%Z (opt_ntrial vm)) p.

(** The same command line with other [--notInPlace] and [--double]. *)
Definition set_flags (vm : options) (notInPlace double : bool) : options :=
  Options (opt_help vm) (opt_version vm) (opt_device vm) (opt_verbose vm)
          (opt_ntrial vm) notInPlace double (opt_precision vm)
          (opt_length vm) (opt_istride vm) (opt_ostride vm)
          (opt_idist vm) (opt_odist vm) (opt_ioffset vm) (opt_ooffset vm)
          (opt_token vm).

(** How [main] ends, by the options. *)
Lemma main_outcome from_token (vm : options) :
  fst (main from_token vm []) =
  if opt_help vm then inl EXIT_SUCCESS
  else if opt_version vm then inl EXIT_SUCCESS
  else if String.eqb (token_of vm) "" then
    match opt_length vm with
    | None => inl EXIT_SUCCESS
    | Some _ => inr (setup_with vm (params_of_options vm))
    end
  else
    match from_token (token_of vm) (notify vm) with
    | Some p => inr (setup_with vm p)
    | None => inl 1%Z
    end.
Proof.
  destruct vm as [h v dev verb nt np dbl prec len ist ost idi odi iof oof tok].
  unfold main, token_of, setup_with, params_of_options, count; cbn [opt_help
    opt_version opt_device opt_verbose opt_ntrial opt_notInPlace opt_double
    opt_precision opt_length opt_istride opt_ostride opt_idist opt_odist
    opt_ioffset opt_ooffset opt_token].
  destruct h; [reflexivity |]. destruct v; [reflexivity |].
  destruct tok as [[|c s]|]; cbn [from_option String.eqb negb].
  2: { unfold notify; cbn. now destruct (from_token _ _). }
  all: destruct len as [l|]; [| reflexivity];
    destruct np, dbl, ist, ost, idi as [[|?]|], odi as [[|?]|], iof, oof;
    reflexivity.
Qed.

Lemma token_of_empty (vm : options) :
  token_of vm = "" -> String.eqb (token_of vm) "" = true.
Proof. intros ->. reflexivity. Qed.

Lemma token_of_nonempty (vm : options) :
  token_of vm <> "" -> String.eqb (token_of vm) "" = false.
Proof. intros Hne. now apply String.eqb_neq. Qed.

(** With [--help] or [--version] [main] prints the help text or the
    version line and nothing else, whatever the other options are, and
    returns [EXIT_SUCCESS]; [--help] goes before [--version]. *)
Theorem main_help_or_version_first from_token (vm : options) :
  opt_help vm = true \/ opt_version vm = true ->
  main from_token vm []
  = (inl EXIT_SUCCESS,
     if opt_help vm then [Opdesc; Endl]
     else [Str "version "; VersionString; Endl]).
Proof.
  intros H. unfold main, count.
  destruct (opt_help vm); [reflexivity |].
  destruct H as [H | H]; [discriminate |]. now rewrite H.
Qed.

(** Before [rocfft_setup], [main] returns 0 or 1, and it returns 1 only
    when, without [--help] and [--version], a token that is not empty
    does not parse. *)
Theorem main_exit_code from_token (vm : options) (c : Z) :
  fst (main from_token vm []) = inl c ->
  (c = 0%Z \/ c = 1%Z) /\
  (c = 1%Z <->
   opt_help vm = false /\ opt_version vm = false /\
   token_of vm <> "" /\ from_token (token_of vm) (notify vm) = None).
Proof.
  rewrite main_outcome. unfold EXIT_SUCCESS.
  destruct (opt_help vm), (opt_version vm);
    try (intros [= <-]; split; [now left | split; [discriminate | intros (? & ? & _); discriminate]]).
  destruct (String.eqb_spec (token_of vm) "") as [He | Hne].
  - destruct (opt_length vm); [discriminate |].
    intros [= <-]; split; [now left |].
    split; [discriminate | now intros (_ & _ & Hn & _)].
  - destruct (from_token (token_of vm) (notify vm)) as [p|] eqn:Hp; [discriminate |].
    intros [= <-]; split; [now right |]. now split.
Qed.

(** [main] reaches [rocfft_setup] exactly when neither [--help] nor
    [--version] is given and either a token that is not empty parses or,
    without a token, [--length] is given. *)
Theorem main_reaches_setup_iff from_token (vm : options) :
  (exists st : at_setup, fst (main from_token vm []) = inr st) <->
  opt_help vm = false /\ opt_version vm = false /\
  ((token_of vm <> "" /\ is_Some (from_token (token_of vm) (notify vm))) \/
   (token_of vm = "" /\ is_Some (opt_length vm))).
Proof.
  rewrite main_outcome.
  destruct (opt_help vm); [split; [intros [? [=]] | intros ([=] & _)] |].
  destruct (opt_version vm); [split; [intros [? [=]] | intros (_ & [=] & _)] |].
  destruct (String.eqb_spec (token_of vm) "") as [He | Hne].
  - destruct (opt_length vm) as [l|].
    + split; [intros _ | intros _; eexists; reflexivity].
      repeat split. right. split; [exact He | now exists l].
    + split; [intros [? [=]] |].
      intros (_ & _ & [[Hn _] | [_ [? [=]]]]). contradiction.
  - destruct (from_token (token_of vm) (notify vm)) as [p|].
    + split; [intros _ | intros _; eexists; reflexivity].
      repeat split. left. split; [exact Hne | now exists p].
    + split; [intros [? [=]] |].
      intros (_ & _ & [[_ [? [=]]] | [He _]]). contradiction.
Qed.

(** With a token that is not empty (and neither [--help] nor
    [--version]) [main] prints the token and takes the parameters from it:
    nothing about placement, lengths, strides or offsets is printed, and
    [--notInPlace] and [--double] change nothing. *)
Theorem main_with_token from_token (vm : options) :
  opt_help vm = false ->
  opt_version vm = false ->
  token_of vm <> "" ->
  let pre := [Str "Running profile with "; Int (from_option 1%Z (opt_ntrial vm));
              Str " samples"; Nl;
              Str "Reading fft params from token:"; Nl;
              Str (token_of vm); Endl] in
  main from_token vm []
  = match from_token (token_of vm) (notify vm) with
    | Some p => (inr (setup_with vm p), pre ++ [Flush])
    | None => (inl 1%Z, pre ++ [Str "Unable to parse token."; Endl])
    end /\
  (forall notInPlace double : bool,
     main from_token (set_flags vm notInPlace double) [] = main from_token vm []).
Proof.
  intros Hh Hv Ht pre. apply token_of_nonempty in Ht.
  assert (Hmain : forall vm' : options,
            opt_help vm' = false -> opt_version vm' = false ->
            String.eqb (token_of vm') "" = false ->
            main from_token vm' []
            = match from_token (token_of vm') (notify vm') with
              | Some p =>
                  (inr (setup_with vm' p),
                   [Str "Running profile with "; Int (from_option 1%Z (opt_ntrial vm'));
                    Str " samples"; Nl;
                    Str "Reading fft params from token:"; Nl;
                    Str (token_of vm'); Endl; Flush])
              | None =>
                  (inl 1%Z,
                   [Str "Running profile with "; Int (from_option 1%Z (opt_ntrial vm'));
                    Str " samples"; Nl;
                    Str "Reading fft params from token:"; Nl;
                    Str (token_of vm'); Endl;
                    Str "Unable to parse token."; Endl])
              end).
  { intros vm' Hh' Hv' Ht'. unfold main, count.
    fold (token_of vm'). rewrite Hh', Hv', Ht'.
    cbn. now destruct (from_token (token_of vm') (notify vm')). }
  split.
  - rewrite (Hmain vm Hh Hv Ht). subst pre.
    now destruct (from_token (token_of vm) (notify vm)).
  - intros a b.
    rewrite (Hmain vm Hh Hv Ht), (Hmain (set_flags vm a b)); [reflexivity | | |];
      assumption.
Qed.

(** Without a token (and neither [--help] nor [--version]) and with
    [--length], [main] reaches [rocfft_setup] with the lengths of the
    command line; [--double] sets double precision whatever [--precision]
    says, and the placement is that of [--notInPlace]. *)
Theorem main_with_length_setup from_token (vm : options) (l : list N) :
  opt_help vm = false ->
  opt_version vm = false ->
  token_of vm = "" ->
  opt_length vm = Some l ->
  exists st : at_setup,
    fst (main from_token vm []) = inr st /\
    length (params st) = l /\
    precision (params st)
    = (if opt_double vm then fft_precision_double
       else from_option fft_precision_single (opt_precision vm)) /\
    placement (params st)
    = (if opt_notInPlace vm then fft_placement_notinplace
       else fft_placement_inplace) /\
    ntrial st = from_option 1%Z (opt_ntrial vm).
Proof.
  intros Hh Hv Ht Hl. exists (setup_with vm (params_of_options vm)).
  rewrite main_outcome, Hh, Hv, (token_of_empty vm Ht), Hl.
  split; [reflexivity |].
  unfold params_of_options; cbn. now rewrite Hl.
Qed.

(** *** The number of elements in the flops estimate *)

(** [int] has 32 bits and [size_t] 64 on the targets of the library; a
    conversion to one of them keeps the value modulo its range. *)
Definition to_int (z : Z) : Z := ((z + 2 ^ 31) mod 2 ^ 32 - 2 ^ 31)%Z.
Definition to_size_t (z : Z) : Z := (z mod 2 ^ 64)%Z.

(** [std::multiplies<size_t>()(a, b)]: the arguments are taken as
    [size_t]. *)
Definition multiplies_size_t (a b : Z) : Z :=
  to_size_t (to_size_t a * to_size_t b).

(** [std::accumulate(first, last, init, op)] over a vector of [size_t] with
    an [init] of type [int]: the accumulator has the type of [init], so
    every result of [op] is converted to [int]. *)
Definition accumulate_int (v : list N) (init : Z) (op : Z -> Z -> Z) : Z :=
  fold_left (fun acc i => to_int (op acc (Z.of_N i))) v init.

(** [main], lines 420 and 421: the [int] that initialises
    [const double totsize]. *)
Definition totsize (length : list N) : Z :=
  accumulate_int length 1%Z multiplies_size_t.

(** The product of the lengths, as a number. *)
Definition product (v : list N) : Z :=
  fold_right (fun i p => (Z.of_N i * p)%Z) 1%Z v.

Example totsize_no_length : totsize [] = 1%Z.
Proof. reflexivity. Qed.

Example totsize_256_256 : totsize [256%N; 256%N] = 65536%Z.
Proof. reflexivity. Qed.

Example totsize_65536_65536 : totsize [65536%N; 65536%N] = 0%Z.
Proof. reflexivity. Qed.

Example totsize_65536_32768 : totsize [65536%N; 32768%N] = (-2147483648)%Z.
Proof. reflexivity. Qed.

Lemma to_int_congr (a b : Z) :
  (a mod 2 ^ 32 = b mod 2 ^ 32)%Z -> to_int a = to_int b.
Proof.
  intros H. unfold to_int.
  now rewrite (Z.add_mod a), (Z.add_mod b), H by discriminate.
Qed.

Lemma to_int_mod (a : Z) : (to_int a mod 2 ^ 32 = a mod 2 ^ 32)%Z.
Proof.
  unfold to_int. rewrite Zminus_mod_idemp_l. f_equal. ring.
Qed.

Lemma to_size_t_mod (a : Z) : (to_size_t a mod 2 ^ 32 = a mod 2 ^ 32)%Z.
Proof.
  unfold to_size_t. apply Z.mod_mod_divide.
  exists (2 ^ 32)%Z. reflexivity.
Qed.

Lemma to_int_small (a : Z) : (- 2 ^ 31 <= a < 2 ^ 31)%Z -> to_int a = a.
Proof.
  intros H. unfold to_int. rewrite Z.mod_small; lia.
Qed.

Lemma to_int_range (a : Z) : (- 2 ^ 31 <= to_int a < 2 ^ 31)%Z.
Proof.
  unfold to_int.
  pose proof (Z.mod_pos_bound (a + 2 ^ 31) (2 ^ 32) eq_refl). lia.
Qed.

Lemma multiplies_step (P i : Z) :
  to_int (multiplies_size_t (to_int P) i) = to_int (P * i).
Proof.
  apply to_int_congr. unfold multiplies_size_t.
  rewrite to_size_t_mod, Z.mul_mod, !to_size_t_mod, to_int_mod by discriminate.
  now rewrite <- Z.mul_mod by discriminate.
Qed.

Lemma accumulate_product (v : list N) (P : Z) :
  accumulate_int v (to_int P) multiplies_size_t = to_int (P * product v).
Proof.
  revert P; induction v as [|i v IH]; intros P; simpl.
  - now rewrite Z.mul_1_r.
  - unfold accumulate_int in *; simpl.
    rewrite multiplies_step, IH. f_equal. ring.
Qed.

Lemma product_nonneg (v : list N) : (0 <= product v)%Z.
Proof. induction v; simpl; lia. Qed.

(** The element count of the flops estimate is the product of the lengths
    wrapped to a signed 32-bit number: it is the product exactly when the
    product is below [2^31]. *)
Theorem totsize_is_wrapped_product (length : list N) :
  totsize length = to_int (product length) /\
  (totsize length = product length <-> (product length < 2 ^ 31)%Z).
Proof.
  assert (H : totsize length = to_int (product length)).
  { unfold totsize. change 1%Z with (to_int 1).
    rewrite accumulate_product. f_equal. ring. }
  split; [exact H |]. rewrite H.
  pose proof (product_nonneg length) as Hp.
  split.
  - intros He. pose proof (to_int_range (product length)). lia.
  - intros Hlt. apply to_int_small. lia.
Qed.

(** *** The statements at sample command lines *)

(** [--token t --double], for some token [t]. *)
Definition with_token : options :=
  Options false false None None None false true None
          None None None None None None None (Some "t").

(** A [from_token] that accepts every token and changes nothing. *)
Definition every_token_parses : string -> rocfft_params -> option rocfft_params :=
  fun _ p => Some p.

Lemma main_help_or_version_first_witness :
  main no_token_parses version_only []
  = (inl EXIT_SUCCESS, [Str "version "; VersionString; Endl]).
Proof.
  apply (main_help_or_version_first no_token_parses version_only).
  right; reflexivity.
Defined.

Lemma main_exit_code_witness :
  fst (main no_token_parses with_token []) = inl 1%Z /\
  (1%Z = 1%Z <->
   opt_help with_token = false /\ opt_version with_token = false /\
   token_of with_token <> "" /\
   no_token_parses (token_of with_token) (notify with_token) = None).
Proof.
  split; [reflexivity |].
  apply (main_exit_code no_token_parses with_token 1%Z). reflexivity.
Defined.

Lemma main_with_token_witness :
  token_of with_token <> "" /\
  main every_token_parses (set_flags with_token true false) []
  = main every_token_parses with_token [].
Proof.
  split; [discriminate |].
  apply (main_with_token every_token_parses with_token);
    [reflexivity | reflexivity | discriminate].
Defined.

Lemma main_with_length_setup_witness :
  exists st : at_setup,
    fst (main no_token_parses with_length []) = inr st /\
    length (params st) = [8%N; 4%N] /\
    precision (params st) = fft_precision_double /\
    placement (params st) = fft_placement_notinplace /\
    ntrial st = 3%Z.
Proof.
  apply (main_with_length_setup no_token_parses with_length [8%N; 4%N]);
    reflexivity.
Defined.

End Bench.
